(** * daily_digest.py: the digest pipeline, embedded and verified

    A shallow embedding of [src/daily_digest.py]: [Configuration],
    [GeminiSummarizer.generate_digest], [_create_summary_content] and
    [DailyDigestApp].  Python values are modelled as follows.

    - [str] is a list of Unicode code points, as in Python 3.
    - [int] is [Z]; list positions are [Z] as well, so that the guard
      [0 <= i < len(papers)] and Python's indexing of negative positions
      can be written as in the source.
    - a paper (a dict with four fixed keys) is a record.
    - an exception is a value of [exn]; code that can raise returns a
      [result]; a [try ... except Exception] is a match on that result.
    - the generation service, the clock and the random number generator
      are inputs of the run, gathered in [World].
    - [print] appends a [line] to the standard output, which is threaded
      through the functions that print, or raises; so do the fetch of the
      papers and the building of the message, which no [try] encloses. *)

From stdpp Require Import base decidable option numbers list strings gmap.
From Stdlib Require Import Ascii.

Local Open Scope Z_scope.

(** ** Strings *)

Module Str.

Definition char := N.
Definition str := list char.

(** A string literal of the source that holds ASCII characters only. *)
Definition lit (s : string) : str :=
  (λ a, N_of_ascii a) <$> String.list_ascii_of_string s.
Arguments lit : simpl never.

(** [str.isspace] of one character: the code points [str.strip()] removes. *)
Definition isspace (c : char) : bool :=
  bool_decide (c ∈ [9; 10; 11; 12; 13; 28; 29; 30; 31; 32; 133; 160; 5760;
                    8232; 8233; 8239; 8287; 12288]%N)
  || ((8192 <=? c)%N && (c <=? 8202)%N).

Fixpoint lstrip (s : str) : str :=
  match s with
  | [] => []
  | c :: s' => if isspace c then lstrip s' else s
  end.

Definition rstrip (s : str) : str := reverse (lstrip (reverse s)).

(** [s.strip()] *)
Definition strip (s : str) : str := rstrip (lstrip s).

(** [s.replace(old, new)] for a non-empty [old]: occurrences are found from
    the left and do not overlap.  [skip] counts the characters of a matched
    occurrence that are still to be passed over. *)
Fixpoint replace_from (old new : str) (skip : nat) (s : str) : str :=
  match s with
  | [] => []
  | c :: s' =>
      match skip with
      | S k => replace_from old new k s'
      | O =>
          if bool_decide (old `prefix_of` s)
          then new ++ replace_from old new (length old - 1) s'
          else c :: replace_from old new 0 s'
      end
  end.

Definition replace (old new s : str) : str := replace_from old new 0 s.

(** [s.split(",")]: the pieces between the commas; never an empty list. *)
Fixpoint split_comma (s : str) : list str :=
  match s with
  | [] => [[]]
  | c :: s' =>
      if bool_decide (c = 44%N) then [] :: split_comma s'
      else match split_comma s' with
           | piece :: pieces => (c :: piece) :: pieces
           | [] => [[c]]
           end
  end.

End Str.
Export Str.

(** ** The interpreter *)

(** What the Python runtime fixes and the program does not: the limit of
    [sys.get_int_max_str_digits()] (4300 unless changed, 0 when switched
    off) and the decimal value of the characters of category Nd that lie
    outside ASCII, which depends on the Unicode tables of the interpreter. *)
Record Interp := {
  int_max_str_digits : nat;
  nonascii_decimal : char → option Z
}.

(** The decimal value of a character, when it is a decimal digit: what the
    pattern [\d] matches and what [int] reads. *)
Definition decimal (rt : Interp) (c : char) : option Z :=
  if (c <? 128)%N
  then if (48 <=? c)%N && (c <=? 57)%N then Some (Z.of_N c - 48) else None
  else nonascii_decimal rt c.

Definition isdecimal (rt : Interp) (c : char) : bool :=
  bool_decide (is_Some (decimal rt c)).

(** ** Exceptions and results *)

Inductive exn :=
  | GenerationError (e : str)       (* raised by the call or by reading [.text] *)
  | IntTooManyDigits (digits : nat) (* ValueError of [int], digit limit *)
  | IntInvalidLiteral (s : str)     (* ValueError of [int] *)
  | IndexError                      (* list index out of range *)
  | SampleLargerThanPopulation      (* ValueError of [random.sample] *)
  | MissingEnvironment              (* ValueError of [Configuration.validate] *)
  | PrintError (e : str)            (* raised by [print] *)
  | FetchError (e : str)            (* raised by the arXiv client *)
  | MimeError (e : str).            (* raised when the message is built *)

Inductive result (A : Type) :=
  | Ok (a : A)
  | Raise (e : exn).
Arguments Ok {A} a.
Arguments Raise {A} e.

#[global] Instance result_ret : MRet result := λ A a, Ok a.
#[global] Instance result_bind : MBind result := λ A B f m,
  match m with Ok a => f a | Raise e => Raise e end.

(** ** Built-ins used by the pipeline *)

Module Py.

(** [re.findall(r'\d+', s)]: the maximal runs of decimal digits, from the
    left.  [run] is the run being read, last character first. *)
Definition flush (run : str) : list str :=
  match run with [] => [] | _ => [reverse run] end.

Fixpoint findall_from (rt : Interp) (run : str) (s : str) : list str :=
  match s with
  | [] => flush run
  | c :: s' =>
      if isdecimal rt c then findall_from rt (c :: run) s'
      else flush run ++ findall_from rt [] s'
  end.

Definition re_findall_digits (rt : Interp) (s : str) : list str :=
  findall_from rt [] s.

(** The value of a digit string read in base ten. *)
Definition int_value (rt : Interp) (s : str) : Z :=
  foldl (λ acc c, 10 * acc + default 0 (decimal rt c)) 0 s.

(** [int(s)] on a string without sign, blanks or underscores.  CPython
    checks the digit limit only for strings of more than 640 digits. *)
Definition int (rt : Interp) (s : str) : result Z :=
  if bool_decide (s = [] ∨ Exists (λ c, decimal rt c = None) s)
  then Raise (IntInvalidLiteral s)
  else if bool_decide (640 < length s ∧ 0 < int_max_str_digits rt
                       ∧ int_max_str_digits rt < length s)%nat
  then Raise (IntTooManyDigits (length s))
  else Ok (int_value rt s).

(** [l[i]]: a negative position counts from the end. *)
Definition getitem {A} (l : list A) (i : Z) : result A :=
  let n := Z.of_nat (length l) in
  let j := if bool_decide (i < 0) then i + n else i in
  if bool_decide (0 ≤ j < n)
  then match l !! Z.to_nat j with Some x => Ok x | None => Raise IndexError end
  else Raise IndexError.

(** [enumerate(l)] *)
Definition enumerate {A} (l : list A) : list (Z * A) :=
  imap (λ i x, (Z.of_nat i, x)) l.

(** [random.sample(population, k)], a library function, modelled by its
    contract: [k] draws without replacement, returned in the order drawn.
    The draw number [i] picks one of the elements still in the pool;
    [rand i] is the raw output of the generator for that draw. *)
Fixpoint draw {A} (rand : nat → nat) (i : nat) (k : nat) (pool : list A)
    : list A :=
  match k with
  | O => []
  | S k' =>
      let j := (rand i `mod` length pool)%nat in
      match pool !! j with
      | Some x => x :: draw rand (S i) k' (delete j pool)
      | None => []
      end
  end.

Definition random_sample {A} (rand : nat → nat) (population : list A)
    (k : nat) : result (list A) :=
  if bool_decide (length population < k)%nat
  then Raise SampleLargerThanPopulation
  else Ok (draw rand 0 k population).

End Py.
Export Py.

(** ** The world of one run *)

(** A paper as [ArxivFetcher.fetch_papers] builds it. *)
Record Paper := {
  title : str;
  abstract : str;
  url : str;
  published : str
}.

(** What one request to the generation service comes to: the text of the
    response, or an exception (raised by the call, or by the method called
    on [response.text] when the response carries no text). *)
Inductive reply :=
  | Text (t : str)
  | Fails (e : str).

(** One line of standard output, by the [print] that writes it. *)
Inductive line :=
  | FetchingPapers
  | GeneratingDigest
  | SendingEmail
  | Done
  | SelectionFailed (e : exn)
  | SummaryFailed (paper_title : str) (e : exn)
  | ErrorSendingEmail (e : str).

(** Everything the run reads from outside.  The replies of the service are
    not functions of the prompt: a property proved for all worlds holds
    however the service chooses its answers. *)
Record World := {
  today : str;                  (* datetime.now().strftime('%B %d, %Y') *)
  today_iso : str;              (* datetime.now().strftime('%Y-%m-%d') *)
  fetched : list Paper;         (* what the arXiv client returns *)
  selection_reply : reply;      (* the request of generate_digest *)
  narrative_reply : nat → reply; (* the request for the j-th selected paper *)
  rand : nat → nat;             (* the random number generator *)
  smtp_error : option str;      (* the exception of the SMTP session, if any *)
  fetch_error : option str;     (* the exception of the arXiv client, if any *)
  mime_error : str → option str; (* the exception of MIMEText on a content *)
  print_error : line → option str (* the exception of print on a line *)
}.

(** [print(...)]: the line goes to the standard output, unless writing it
    raises (a character the stream cannot encode, a closed stream). *)
Definition print (w : World) (l : line) : result (list line) :=
  match print_error w l with
  | Some e => Raise (PrintError e)
  | None => Ok [l]
  end.

(** ** GeminiSummarizer *)

Module GeminiSummarizer.

(** The body of the [try] of [generate_digest] (lines 71-81), after the
    request: clean the text, read the tokens, keep three, index. *)
Definition selection_attempt (rt : Interp) (papers : list Paper) (r : reply)
    : result (list Paper * list Z) :=
  text ← match r with
         | Text t => Ok (strip t)
         | Fails e => Raise (GenerationError e)
         end;
  let ids := re_findall_digits rt text in
  selected_indices ← mapM (int rt) (take 3 ids);
  selected_papers ←
    mapM (getitem papers)
         (filter (λ i, 0 ≤ i < Z.of_nat (length papers)) selected_indices);
  mret (selected_papers, selected_indices).

(** The [try ... except Exception] of [generate_digest] (lines 70-85): the
    selected papers, the selected indices and what was printed.  In the
    handler the failure is printed first (line 83); when that raises, the
    exception leaves the handler and nothing is selected. *)
Definition selection (rt : Interp) (w : World) (papers : list Paper)
    (r : reply) : result (list Paper * list Z * list line) :=
  match selection_attempt rt papers r with
  | Ok (selected_papers, selected_indices) =>
      Ok (selected_papers, selected_indices, [])
  | Raise e =>
      printed ← print w (SelectionFailed e);
      Ok (take 3 papers, [0; 1; 2], printed)
  end.

(** The cleaning of one narrative (line 120). *)
Definition clean (t : str) : str :=
  replace (lit "```") [] (replace (lit "```html") [] t).

(** The loop over the selected papers (lines 92-123).  [j] numbers the
    requests; the state is the document so far and the standard output.
    A failed request is printed in the handler (line 123); when that print
    raises, the exception leaves the loop. *)
Fixpoint summaries (w : World) (j : nat) (selected_papers : list Paper)
    (st : str * list line) : result (str * list line) :=
  match selected_papers with
  | [] => Ok st
  | paper :: rest =>
      st' ← match narrative_reply w j with
            | Text t => Ok (st.1 ++ clean t, st.2)
            | Fails e =>
                printed ← print w (SummaryFailed (title paper)
                                     (GenerationError e));
                Ok (st.1, st.2 ++ printed)
            end;
      summaries w (S j) rest st'
  end.

(** Line 126, with the positions kept beside the papers. *)
Definition remaining_indexed (all_papers : list Paper)
    (selected_indices : list Z) : list (Z * Paper) :=
  filter (λ ip, ip.1 ∉ selected_indices) (enumerate all_papers).

Definition remaining_papers (all_papers : list Paper)
    (selected_indices : list Z) : list Paper :=
  (remaining_indexed all_papers selected_indices).*2.

(** Line 127. *)
Definition bonus_papers (w : World) (all_papers : list Paper)
    (selected_indices : list Z) : result (list Paper) :=
  let remaining := remaining_papers all_papers selected_indices in
  random_sample (rand w) remaining (3 `min` length remaining)%nat.

(** The pieces of the document (lines 90, 129 and 132). *)
Definition digest_header (today : str) : str :=
  lit "<h1>Daily AI Research Digest</h1><p>" ++ today ++ lit "</p><hr>".

Definition bonus_heading : str :=
  lit "<hr><h2>" ++ [128218%N] ++ lit " Read More Good Articles</h2>".

Definition bonus_item (paper : Paper) : str :=
  lit "<li><a href='" ++ url paper ++ lit "' style='color: #3498db;'>"
  ++ title paper ++ lit "</a></li>".

(** [_create_summary_content] (lines 89-135); [out] is the standard output
    so far. *)
Definition _create_summary_content (w : World) (selected_papers : list Paper)
    (all_papers : list Paper) (selected_indices : list Z) (out : list line)
    : result (str * list line) :=
  let summary_html := digest_header (today w) in
  '(summary_html, out) ← summaries w 0 selected_papers (summary_html, out);
  bonus ← bonus_papers w all_papers selected_indices;
  let summary_html := summary_html ++ bonus_heading in
  let summary_html := summary_html ++ lit "<ul style='line-height: 1.8;'>" in
  let summary_html :=
    foldl (λ html paper, html ++ bonus_item paper) summary_html bonus in
  let summary_html := summary_html ++ lit "</ul>" in
  mret (summary_html, out).

(** [generate_digest] (lines 49-87). *)
Definition generate_digest (rt : Interp) (w : World) (papers : list Paper)
    : result (str * list line) :=
  '(selected_papers, selected_indices, out) ←
    selection rt w papers (selection_reply w);
  _create_summary_content w selected_papers papers selected_indices out.

End GeminiSummarizer.
Export GeminiSummarizer.

(** ** Configuration *)

Module Config.

(** [os.getenv(name)] and [os.getenv(name, default)] on the environment,
    a map from names to values. *)
Definition getenv (env : gmap string str) (name : string) : option str :=
  env !! name.

Definition getenv_default (env : gmap string str) (name : string)
    (dflt : str) : str :=
  default dflt (env !! name).

Record Configuration := {
  gemini_api_key : option str;
  email_address : option str;
  email_password : option str;
  receiver_emails : list str;
  model_name : str
}.

(** [Configuration.__init__] (lines 11-20).  The test of lines 17-19 has
    [pass] for its body and changes nothing. *)
Definition __init__ (env : gmap string str) : Configuration :=
  {| gemini_api_key := getenv env "GEMINI_API_KEY";
     email_address := getenv env "EMAIL_ADDRESS";
     email_password := getenv env "EMAIL_PASSWORD";
     receiver_emails := split_comma (getenv_default env "RECEIVER_EMAILS" []);
     model_name := lit "gemini-3-flash-preview" |}.

(** Truth of a value that is [None] or a string, and of a list. *)
Definition truthy_str (v : option str) : bool :=
  match v with
  | Some (_ :: _) => true
  | _ => false
  end.

Definition truthy_list {A} (l : list A) : bool :=
  match l with
  | [] => false
  | _ :: _ => true
  end.

(** [Configuration.validate] (lines 22-24) *)
Definition validate (c : Configuration) : result unit :=
  if negb (forallb id [truthy_str (gemini_api_key c);
                       truthy_str (email_address c);
                       truthy_str (email_password c);
                       truthy_list (receiver_emails c)])
  then Raise MissingEnvironment
  else Ok ().

End Config.
Export Config.

(** ** EmailSender *)

Module EmailSender.

(** What [send_email] hands to the SMTP session. *)
Record Email := {
  receivers : list str;
  subject : str;
  html_content : str
}.

(** [EmailSender.send_email] (lines 142-158): the message that was
    delivered, if the session raised nothing, and what was printed.  The
    message is built before the [try] (line 146), so an exception there
    propagates; an exception of the session is printed in the handler. *)
Definition send_email (w : World) (m : Email)
    : result (option Email * list line) :=
  match mime_error w (html_content m) with
  | Some e => Raise (MimeError e)
  | None =>
      match smtp_error w with
      | None => Ok (Some m, [])
      | Some e =>
          printed ← print w (ErrorSendingEmail e);
          Ok (None, printed)
      end
  end.

End EmailSender.
Export EmailSender.

(** ** DailyDigestApp *)

Module DailyDigestApp.

(** [DailyDigestApp.__init__] (lines 161-166) *)
Definition __init__ (env : gmap string str) : result Configuration :=
  let config := Config.__init__ env in
  _ ← validate config;
  mret config.

(** [DailyDigestApp.run] (lines 168-181).  Nothing here is inside a
    [try]: an exception of a print, of the fetch or of [send_email]
    propagates. *)
Definition run (rt : Interp) (w : World) (config : Configuration)
    : result (option Email * list line) :=
  out ← print w FetchingPapers;
  papers ← match fetch_error w with
           | Some e => Raise (FetchError e)
           | None => Ok (fetched w)
           end;
  printed ← print w GeneratingDigest;
  let out := out ++ printed in
  '(digest_html, printed) ← generate_digest rt w papers;
  let out := out ++ printed in
  printed ← print w SendingEmail;
  let out := out ++ printed in
  '(sent, printed) ←
    send_email w {| receivers := receiver_emails config;
                    subject := lit "AI Research Digest - " ++ today_iso w;
                    html_content := digest_html |};
  let out := out ++ printed in
  printed ← print w Done;
  mret (sent, out ++ printed).

(** The script (lines 183-185) *)
Definition main (rt : Interp) (w : World) (env : gmap string str)
    : result (option Email * list line) :=
  config ← __init__ env;
  run rt w config.

End DailyDigestApp.

(** ** Notions of the specification, read off the model *)

(** The SelectionResult: the positions of the papers that [selection]
    keeps, as line 81 filters them out of the selected indices
    ([selection_papers_at_positions] below ties the two together). *)
Definition selected_positions (papers : list Paper)
    (selected_indices : list Z) : list Z :=
  filter (λ i, 0 ≤ i < Z.of_nat (length papers)) selected_indices.

(** What the selection returns when its print raises nothing: the papers,
    the indices, and the line of the handler when the [try] raised. *)
Definition selection_outcome (rt : Interp) (papers : list Paper) (r : reply)
    : list Paper * list Z * list line :=
  match selection_attempt rt papers r with
  | Ok (selected_papers, selected_indices) =>
      (selected_papers, selected_indices, [])
  | Raise e => (take 3 papers, [0; 1; 2], [SelectionFailed e])
  end.

(** A world in which a line is printed without an exception. *)
Definition prints (w : World) (l : line) : Prop := print_error w l = None.

(** A world like [w] where [print] raises [e] on every line. *)
Definition with_failing_print (w : World) (e : str) : World :=
  {| today := today w; today_iso := today_iso w; fetched := fetched w;
     selection_reply := selection_reply w;
     narrative_reply := narrative_reply w; rand := rand w;
     smtp_error := smtp_error w; fetch_error := fetch_error w;
     mime_error := mime_error w; print_error := λ _, Some e |}.

(** The papers found at a list of positions of the corpus. *)
Definition papers_at (papers : list Paper) (positions : list Z)
    : list Paper :=
  omap (λ i, papers !! Z.to_nat i) positions.

(** The NarrativeSections of the requests [j], ..., [j + n - 1]: the cleaned
    text of each request that succeeded, in the order of the requests. *)
Definition narrative_section (r : reply) : option str :=
  match r with
  | Text t => Some (clean t)
  | Fails _ => None
  end.

Definition narrative_sections (w : World) (j n : nat) : list str :=
  omap (λ i, narrative_section (narrative_reply w i)) (seq j n).

(** What the loop prints: one line for each request that failed. *)
Definition narrative_failure (w : World) (ip : nat * Paper) : option line :=
  match narrative_reply w ip.1 with
  | Text _ => None
  | Fails e => Some (SummaryFailed (title ip.2) (GenerationError e))
  end.

Definition narrative_failures (w : World) (j : nat)
    (selected_papers : list Paper) : list line :=
  omap (narrative_failure w)
       (zip (seq j (length selected_papers)) selected_papers).

(** The BonusSet with its positions: the draw of line 127 made on the
    remainder that still carries the positions. *)
Definition bonus_drawn (w : World) (all_papers : list Paper)
    (selected_indices : list Z) : list (Z * Paper) :=
  let remaining := remaining_indexed all_papers selected_indices in
  draw (rand w) 0 (3 `min` length remaining)%nat remaining.

(** The bonus-reading section and the assembled document. *)
Definition bonus_section (bonus : list Paper) : str :=
  bonus_heading ++ lit "<ul style='line-height: 1.8;'>"
  ++ mjoin (bonus_item <$> bonus) ++ lit "</ul>".

Definition assemble (today : str) (sections : list str)
    (bonus : list Paper) : str :=
  digest_header today ++ mjoin sections ++ bonus_section bonus.

(** The document written out in full: title and date, the sections, the
    divider and heading of the bonus reading, and one link for each bonus
    paper, made of its url and its title. *)
Definition document (today : str) (sections : list str)
    (bonus : list Paper) : str :=
  lit "<h1>Daily AI Research Digest</h1><p>" ++ today ++ lit "</p><hr>"
  ++ mjoin sections
  ++ lit "<hr><h2>" ++ [128218%N] ++ lit " Read More Good Articles</h2>"
  ++ lit "<ul style='line-height: 1.8;'>"
  ++ mjoin ((λ p, lit "<li><a href='" ++ url p
                  ++ lit "' style='color: #3498db;'>" ++ title p
                  ++ lit "</a></li>") <$> bonus)
  ++ lit "</ul>".

(** What [generate_digest] prints when no print raises: the line of the
    selection, if it fell back, then one line for each narrative request
    that failed. *)
Definition digest_lines (rt : Interp) (w : World) (papers : list Paper)
    : list line :=
  (selection_outcome rt papers (selection_reply w)).2
  ++ narrative_failures w 0
       (selection_outcome rt papers (selection_reply w)).1.1.

(** A token that [int] converts without meeting the digit limit: the test
    of [int] read the other way round. *)
Definition within_digit_limit (rt : Interp) (tok : str) : Prop :=
  ¬ (640 < length tok ∧ 0 < int_max_str_digits rt
     ∧ int_max_str_digits rt < length tok)%nat.

(** The first three tokens of a reply, as lines 76-80 read them. *)
Definition first_ids (rt : Interp) (t : str) : list str :=
  take 3 (re_findall_digits rt (strip t)).

(** ** Data for the examples *)

(** An interpreter with the default digit limit that knows, outside ASCII,
    the Arabic-Indic digits. *)
Definition py_default : Interp :=
  {| int_max_str_digits := 4300;
     nonascii_decimal := λ c,
       if bool_decide (1632 ≤ c < 1642)%N then Some (Z.of_N c - 1632)
       else None |}.

Definition paper_n (n : nat) : Paper :=
  {| title := lit "Paper " ++ [N.of_nat (65 + n)];
     abstract := lit "Abstract";
     url := lit "http://arxiv.org/abs/" ++ [N.of_nat (65 + n)];
     published := lit "2026-01-01" |}.

Definition corpus (n : nat) : list Paper := paper_n <$> seq 0 n.

(** A world in which the service answers the selection with [sel], the
    narrative request [j] with [nar j], and the generator returns [r];
    fetching, building the message, sending and printing raise nothing. *)
Definition world (sel : reply) (nar : nat → reply) (r : nat → nat) : World :=
  {| today := lit "January 01, 2026";
     today_iso := lit "2026-01-01";
     fetched := corpus 5;
     selection_reply := sel;
     narrative_reply := nar;
     rand := r;
     smtp_error := None;
     fetch_error := None;
     mime_error := λ _, None;
     print_error := λ _, None |}.

(** An environment with the three credentials and no RECEIVER_EMAILS. *)
Definition env_without_receivers : gmap string str :=
  {[ "GEMINI_API_KEY" := lit "key";
     "EMAIL_ADDRESS" := lit "me@example.org";
     "EMAIL_PASSWORD" := lit "secret" ]}.

(** ** More of the source: joining, printing numbers, the paper list *)

Module Fmt.

(** [sep.join(pieces)] *)
Fixpoint join (sep : str) (pieces : list str) : str :=
  match pieces with
  | [] => []
  | piece :: rest =>
      match rest with
      | [] => piece
      | _ :: _ => piece ++ sep ++ join sep rest
      end
  end.

(** The character of a digit below ten. *)
Definition digit_char (d : nat) : char := N.of_nat (48 + d).

(** [str(n)] of a number that is not negative: its decimal digits, the most
    significant first, without leading zeros.  [fuel] bounds the number of
    digits. *)
Fixpoint digits_of (fuel n : nat) : str :=
  match fuel with
  | O => []
  | S fuel' =>
      if decide (n < 10)%nat then [digit_char n]
      else digits_of fuel' (n `div` 10)%nat ++ [digit_char (n `mod` 10)]
  end.

Definition str_of_nat (n : nat) : str := digits_of (S n) n.

(** [str(i)], which an f-string applies to [{i}]. *)
Definition str_of_int (i : Z) : str :=
  if bool_decide (i < 0) then 45%N :: str_of_nat (Z.to_nat (- i))
  else str_of_nat (Z.to_nat i).

(** Line 50: the entry of one paper in the selection prompt, and the list
    of all entries. *)
Definition paper_entry (ip : Z * Paper) : str :=
  lit "ID: " ++ str_of_int ip.1 ++ [10%N] ++ lit "Title: " ++ title ip.2
  ++ [10%N] ++ lit "Abstract: " ++ abstract ip.2.

Definition paper_text (papers : list Paper) : str :=
  join [10; 10]%N (paper_entry <$> enumerate papers).

(** Line 155: the To header of the message. *)
Definition to_header (receivers : list str) : str :=
  join (lit ", ") receivers.

End Fmt.
Export Fmt.

(** [old] occurs in [s] as a run of consecutive characters. *)
Definition occurs (old s : str) : Prop := ∃ l1 l2, s = l1 ++ old ++ l2.

(** The code fence that line 120 removes. *)
Definition fence : str := lit "```".

(** An environment variable that [validate] counts as missing: unset, or
    set to the empty string. *)
Definition unset_or_empty (env : gmap string str) (name : string) : Prop :=
  getenv env name = None ∨ getenv env name = Some [].

(** ** The model on small inputs *)

Example findall_example :
  re_findall_digits py_default (lit "[0, 15] and 42nd, x7")
  = [lit "0"; lit "15"; lit "42"; lit "7"].
Proof. vm_compute. reflexivity. Qed.

Example findall_arabic_indic_example :
  int py_default <$> re_findall_digits py_default [1633; 1634; 32; 51]%N
  = [Ok 12; Ok 3].
Proof. vm_compute. reflexivity. Qed.

Example int_leading_zeros_example : int py_default (lit "007") = Ok 7.
Proof. vm_compute. reflexivity. Qed.

Example strip_example : strip (lit "  1, 3 ") = lit "1, 3".
Proof. vm_compute. reflexivity. Qed.

Example replace_example :
  replace (lit "aa") (lit "b") (lit "aaaaa") = lit "bba".
Proof. vm_compute. reflexivity. Qed.

Example clean_example :
  clean (lit "```html<div>x</div>```") = lit "<div>x</div>".
Proof. vm_compute. reflexivity. Qed.

Example split_comma_example :
  split_comma (lit "a@x.org,b@y.org") = [lit "a@x.org"; lit "b@y.org"]
  ∧ split_comma (lit "") = [lit ""].
Proof. vm_compute. done. Qed.

Example getitem_example :
  getitem (corpus 3) 2 = Ok (paper_n 2)
  ∧ getitem (corpus 3) (-1) = Ok (paper_n 2)
  ∧ getitem (corpus 3) 3 = Raise IndexError.
Proof. vm_compute. done. Qed.

Example random_sample_too_many_example :
  random_sample (λ _, 0%nat) (corpus 2) 3 = Raise SampleLargerThanPopulation.
Proof. vm_compute. reflexivity. Qed.

(** The scenario of the specification: five papers, the reply "1, 3", the
    narrative of paper 1 written and that of paper 3 failed, the bonus
    papers 0, 2, 4 drawn in this order. *)
Example end_to_end_example :
  generate_digest py_default
    (world (Text (lit "1, 3"))
       (λ j, if decide (j = 0%nat) then Text (lit "<div>one</div>")
             else Fails (lit "503"))
       (λ _, 0%nat))
    (corpus 5)
  = Ok (digest_header (lit "January 01, 2026") ++ lit "<div>one</div>"
        ++ bonus_section [paper_n 0; paper_n 2; paper_n 4],
        [SummaryFailed (title (paper_n 3)) (GenerationError (lit "503"))]).
Proof. vm_compute. reflexivity. Qed.

(** ** The result monad *)

Lemma bind_Ok {A B} (m : result A) (f : A → result B) (b : B) :
  m ≫= f = Ok b ↔ ∃ a, m = Ok a ∧ f a = Ok b.
Proof.
  unfold mbind, result_bind. destruct m as [a|e].
  - split; [by exists a|]. by intros (a' & [= <-] & ?).
  - split; [done|]. by intros (? & ? & ?).
Qed.

Lemma mapM_Ok_length {A B} (f : A → result B) (l : list A) (k : list B) :
  mapM f l = Ok k → length k = length l.
Proof.
  revert k. induction l as [|x l IH]; intros k; simpl.
  - by intros [= <-].
  - intros (y & _ & (k' & Hk' & [= <-])%bind_Ok)%bind_Ok.
    simpl. f_equal. by apply IH.
Qed.

Lemma mapM_Ok_nil {A B} (f : A → result B) : mapM f [] = Ok [].
Proof. done. Qed.

(** ** Indexing under the guard *)

Lemma getitem_in_range {A} (l : list A) (i : Z) :
  0 ≤ i < Z.of_nat (length l) →
  ∃ x, getitem l i = Ok x ∧ l !! Z.to_nat i = Some x.
Proof.
  intros Hi. unfold getitem. cbv zeta.
  rewrite (bool_decide_false (i < 0)) by lia.
  rewrite bool_decide_true by done.
  destruct (lookup_lt_is_Some_2 l (Z.to_nat i)) as [x Hx]; [lia|].
  exists x. by rewrite Hx.
Qed.

Lemma mapM_getitem_guarded (papers : list Paper) (idx : list Z) :
  Forall (λ i, 0 ≤ i < Z.of_nat (length papers)) idx →
  mapM (getitem papers) idx = Ok (papers_at papers idx).
Proof.
  induction 1 as [|i idx Hi _ IH]; [done|].
  destruct (getitem_in_range papers i Hi) as (x & Hget & Hx).
  unfold papers_at in *.
  change (mapM (getitem papers) (i :: idx))
    with (getitem papers i ≫= λ y, mapM (getitem papers) idx ≫= λ k, mret (y :: k)).
  rewrite Hget. simpl. rewrite IH. simpl. by rewrite Hx.
Qed.

Lemma selected_positions_in_range (papers : list Paper) (idx : list Z) :
  Forall (λ i, 0 ≤ i < Z.of_nat (length papers))
         (selected_positions papers idx).
Proof.
  apply Forall_forall. intros i Hi.
  by apply list_elem_of_filter in Hi as [? _].
Qed.

Lemma selection_attempt_Ok rt papers r sp si :
  selection_attempt rt papers r = Ok (sp, si) →
  sp = papers_at papers (selected_positions papers si)
  ∧ (length si ≤ 3)%nat
  ∧ ∃ t, r = Text t
      ∧ mapM (int rt) (take 3 (re_findall_digits rt (strip t))) = Ok si.
Proof.
  unfold selection_attempt.
  intros (text & Htext & (si' & Hsi & Hrest)%bind_Ok)%bind_Ok.
  apply bind_Ok in Hrest as (sp' & Hsp & [= <- <-]).
  fold (selected_positions papers si') in Hsp.
  rewrite mapM_getitem_guarded in Hsp by apply selected_positions_in_range.
  injection Hsp as <-.
  split; [done|]. split.
  - apply mapM_Ok_length in Hsi. rewrite Hsi, length_take. lia.
  - destruct r as [t|e]; [|done]. injection Htext as <-. eauto.
Qed.

Lemma selection_attempt_text rt papers t vs :
  mapM (int rt) (take 3 (re_findall_digits rt (strip t))) = Ok vs →
  selection_attempt rt papers (Text t)
  = Ok (papers_at papers (selected_positions papers vs), vs).
Proof.
  intros Hvs. unfold selection_attempt. simpl. rewrite Hvs. simpl.
  fold (selected_positions papers vs).
  rewrite mapM_getitem_guarded by apply selected_positions_in_range.
  done.
Qed.

(** ** The fallback of the selection *)

Lemma fallback_positions (papers : list Paper) :
  selected_positions papers [0; 1; 2]
  = seqZ 0 (Z.of_nat (3 `min` length papers)).
Proof.
  unfold selected_positions.
  destruct papers as [|a [|b [|c l]]]; try reflexivity.
  cbn [length]. rewrite !filter_cons_True by lia.
  by replace (3 `min` S (S (S (length l))))%nat with 3%nat by lia.
Qed.

Lemma fallback_papers (papers : list Paper) :
  take 3 papers = papers_at papers (selected_positions papers [0; 1; 2]).
Proof.
  unfold selected_positions.
  destruct papers as [|a [|b [|c l]]]; try reflexivity.
  cbn [length]. by rewrite !filter_cons_True by lia.
Qed.

Lemma selection_raise rt papers r e :
  selection_attempt rt papers r = Raise e →
  selection_outcome rt papers r = (take 3 papers, [0; 1; 2], [SelectionFailed e]).
Proof. intros H. unfold selection_outcome. by rewrite H. Qed.

Lemma selection_ok rt papers r sp si :
  selection_attempt rt papers r = Ok (sp, si) →
  selection_outcome rt papers r = (sp, si, []).
Proof. intros H. unfold selection_outcome. by rewrite H. Qed.

(** Both branches of the [try] return the papers found at the valid
    selected indices, and at most three indices. *)
Lemma selection_papers_at_positions rt papers r :
  (selection_outcome rt papers r).1.1
  = papers_at papers (selected_positions papers (selection_outcome rt papers r).1.2)
  ∧ (length (selection_outcome rt papers r).1.2 ≤ 3)%nat.
Proof.
  destruct (selection_attempt rt papers r) as [[sp si]|e] eqn:Hatt.
  - rewrite (selection_ok _ _ _ _ _ Hatt). simpl.
    apply selection_attempt_Ok in Hatt as (-> & Hlen & _). done.
  - rewrite (selection_raise _ _ _ _ Hatt). simpl.
    split; [apply fallback_papers|lia].
Qed.

Lemma papers_at_length (papers : list Paper) (idx : list Z) :
  Forall (λ i, 0 ≤ i < Z.of_nat (length papers)) idx →
  length (papers_at papers idx) = length idx.
Proof.
  intros H. pose proof (mapM_getitem_guarded papers idx H) as Hm.
  by apply mapM_Ok_length in Hm.
Qed.

(** ** The selection and its print *)

Lemma print_Ok w (l : line) : prints w l → print w l = Ok [l].
Proof. unfold print, prints. by intros ->. Qed.

Lemma print_Raise w (l : line) (m : str) :
  print_error w l = Some m → print w l = Raise (PrintError m).
Proof. unfold print. by intros ->. Qed.

Lemma selection_attempt_Ok_selection rt w papers r sp si :
  selection_attempt rt papers r = Ok (sp, si) →
  selection rt w papers r = Ok (sp, si, []).
Proof. intros H. unfold selection. by rewrite H. Qed.

Lemma selection_attempt_Raise_selection rt w papers r e :
  selection_attempt rt papers r = Raise e →
  selection rt w papers r
  = print w (SelectionFailed e)
    ≫= λ printed, Ok (take 3 papers, [0; 1; 2], printed).
Proof. intros H. unfold selection. by rewrite H. Qed.

(** The selection either returns its outcome, having printed the line of
    the handler if there is one, or raises what that print raised. *)
Lemma selection_cases rt w papers r :
  (Forall (prints w) (selection_outcome rt papers r).2
   ∧ selection rt w papers r = Ok (selection_outcome rt papers r))
  ∨ (∃ l m, l ∈ (selection_outcome rt papers r).2
       ∧ print_error w l = Some m
       ∧ selection rt w papers r = Raise (PrintError m)).
Proof.
  unfold selection, selection_outcome.
  destruct (selection_attempt rt papers r) as [[sp si]|e].
  - left. split; [constructor|done].
  - cbn [snd]. unfold print, prints.
    destruct (print_error w (SelectionFailed e)) as [m|] eqn:Hp.
    + right. exists (SelectionFailed e), m. split; [by left|done].
    + left. split; [by repeat constructor|done].
Qed.

Lemma selection_inv rt w papers r sp si out :
  selection rt w papers r = Ok (sp, si, out) →
  selection_outcome rt papers r = (sp, si, out).
Proof.
  destruct (selection_cases rt w papers r)
    as [[_ ->]|(l & m & _ & _ & ->)]; [|done].
  by intros [= ->].
Qed.

(** ** The tokens of a text *)

Lemma lstrip_suffix (s : str) : lstrip s `suffix_of` s.
Proof.
  induction s as [|c s IH]; simpl; [done|].
  destruct (isspace c); [by apply suffix_cons_r|done].
Qed.

Lemma elem_of_strip (s : str) (c : char) : c ∈ strip s → c ∈ s.
Proof.
  unfold strip, rstrip. rewrite elem_of_reverse. intros Hc.
  pose proof (lstrip_suffix (reverse (lstrip s))) as [k1 Hk1].
  pose proof (lstrip_suffix s) as [k2 Hk2].
  assert (c ∈ reverse (lstrip s)) as Hr.
  { rewrite Hk1. apply elem_of_app. by right. }
  assert (c ∈ lstrip s) as Hl by (by apply elem_of_reverse).
  rewrite Hk2. apply elem_of_app. by right.
Qed.

Lemma findall_no_digit rt (s : str) :
  (∀ c, c ∈ s → decimal rt c = None) → re_findall_digits rt s = [].
Proof.
  unfold re_findall_digits.
  induction s as [|c s IH]; intros Hs; simpl; [done|].
  unfold isdecimal. rewrite bool_decide_false.
  - simpl. apply IH. intros c' Hc'. apply Hs. by right.
  - rewrite (Hs c) by left. by intros [? ?].
Qed.

(** ** Sampling without replacement *)

Lemma draw_fmap {A B} (f : A → B) rand i k (pool : list A) :
  draw rand i k (f <$> pool) = f <$> draw rand i k pool.
Proof.
  revert i pool. induction k as [|k IH]; intros i pool; simpl; [done|].
  rewrite length_fmap, list_lookup_fmap.
  destruct (pool !! _) as [x|]; simpl; [|done].
  by rewrite <- list_fmap_delete, IH.
Qed.

Lemma draw_submseteq {A} rand i k (pool : list A) :
  draw rand i k pool ⊆+ pool.
Proof.
  revert i pool. induction k as [|k IH]; intros i pool; simpl.
  - apply submseteq_nil_l.
  - destruct (pool !! _) as [x|] eqn:Hx; [|apply submseteq_nil_l].
    transitivity (x :: delete (rand i `mod` length pool)%nat pool).
    + by apply submseteq_skip.
    + by rewrite <- (delete_Permutation pool _ x Hx).
Qed.

Lemma draw_length {A} rand i k (pool : list A) :
  (k ≤ length pool)%nat → length (draw rand i k pool) = k.
Proof.
  revert i pool. induction k as [|k IH]; intros i pool Hk; simpl; [done|].
  assert (rand i `mod` length pool < length pool)%nat as Hj
    by (apply Nat.mod_upper_bound; lia).
  destruct (lookup_lt_is_Some_2 pool _ Hj) as [x Hx]. rewrite Hx. simpl.
  f_equal. apply IH. rewrite length_delete by eauto. lia.
Qed.

Lemma random_sample_Ok {A} rand (population : list A) k :
  (k ≤ length population)%nat →
  random_sample rand population k = Ok (draw rand 0 k population).
Proof. intros Hk. unfold random_sample. by rewrite bool_decide_false by lia. Qed.

Lemma draw_ext {A} rand rand' i k (pool : list A) :
  (∀ n, (i ≤ n)%nat → rand n = rand' n) →
  draw rand i k pool = draw rand' i k pool.
Proof.
  revert i pool. induction k as [|k IH]; intros i pool Hext; simpl; [done|].
  rewrite <- (Hext i) by lia.
  destruct (pool !! _) as [x|]; [|done].
  f_equal. apply IH. intros n Hn. apply Hext. lia.
Qed.

Lemma lookup_delete_shift {A} (pool : list A) (p q : nat) :
  q ≠ p →
  delete p pool !! (if decide (q < p)%nat then q else pred q) = pool !! q.
Proof.
  intros Hne. case_decide as Hq.
  - by apply list_lookup_delete_lt.
  - rewrite list_lookup_delete_ge by lia. f_equal. lia.
Qed.

Lemma omap_delete_shift {A} (pool : list A) (p : nat) (ps : list nat) :
  (∀ q, q ∈ ps → q ≠ p) →
  omap (λ q, delete p pool !! q)
       ((λ q : nat, if decide (q < p)%nat then q else pred q) <$> ps)
  = omap (λ q, pool !! q) ps.
Proof.
  induction ps as [|q ps IH]; intros Hne; [done|].
  rewrite fmap_cons. cbn [omap list_omap].
  rewrite lookup_delete_shift by (apply Hne; left).
  fold (@omap list _ _ _ (λ q, delete p pool !! q)).
  fold (@omap list _ _ _ (λ q, pool !! q)).
  rewrite IH by (intros q' Hq'; apply Hne; by right). done.
Qed.

(** The model leaves out no outcome of the sampler: every sequence of
    pairwise distinct positions of the population is drawn by some
    generator. *)
Lemma draw_complete {A} (k : nat) (pool : list A) (ps : list nat) (i : nat) :
  length ps = k → NoDup ps → Forall (λ p, p < length pool)%nat ps →
  ∃ rand, draw rand i k pool = omap (λ p, pool !! p) ps.
Proof.
  revert pool ps i.
  induction k as [|k IH]; intros pool [|p ps] i Hlen Hnd Hlt; try done.
  - by exists (λ _, 0%nat).
  - apply NoDup_cons in Hnd as [Hp Hnd].
    apply Forall_cons in Hlt as [Hplt Hlt].
    destruct (lookup_lt_is_Some_2 pool p Hplt) as [x Hx].
    assert (∀ q, q ∈ ps → q ≠ p) as Hne by (intros q Hq ->; done).
    set (shift := λ q : nat, if decide (q < p)%nat then q else pred q).
    destruct (IH (delete p pool) (shift <$> ps) (S i)) as [rand Hrand].
    + rewrite length_fmap. by injection Hlen.
    + apply NoDup_fmap_2_strong; [|done].
      intros q1 q2 Hq1%Hne Hq2%Hne. unfold shift.
      repeat case_decide; lia.
    + apply Forall_fmap, Forall_forall. intros q Hq.
      rewrite Forall_forall in Hlt. specialize (Hlt q Hq).
      specialize (Hne q Hq). rewrite length_delete by eauto.
      unfold shift. simpl. case_decide; lia.
    + exists (λ m, if decide (m = i) then p else rand m). simpl.
      rewrite decide_True by done. rewrite Nat.mod_small by done.
      rewrite Hx. simpl. f_equal.
      rewrite (draw_ext _ rand) by (intros m Hm; rewrite decide_False; lia).
      rewrite Hrand. by apply omap_delete_shift.
Qed.

(** ** The remainder *)

Lemma fst_filter_fst {A B} (P : A → Prop) (Q : A * B → Prop)
    `{∀ x, Decision (P x)} `{∀ x, Decision (Q x)} (l : list (A * B)) :
  (∀ ab, Q ab ↔ P ab.1) → (filter Q l).*1 = filter P (l.*1).
Proof.
  intros HQ. induction l as [|[a b] l IH]; [done|].
  rewrite fmap_cons. simpl. rewrite (filter_cons P a), (filter_cons Q (a, b)).
  destruct (decide (Q (a, b))) as [Hq|Hq], (decide (P a)) as [Hp|Hp].
  - rewrite fmap_cons. simpl. f_equal. exact IH.
  - by apply HQ in Hq.
  - by apply (HQ (a, b)) in Hp.
  - exact IH.
Qed.

Lemma enumerate_fst {A} (l : list A) :
  (enumerate l).*1 = seqZ 0 (Z.of_nat (length l)).
Proof.
  unfold enumerate, seqZ. rewrite fmap_imap, Nat2Z.id.
  rewrite <- (imap_seq_0 l (λ i : nat, Z.of_nat i + 0)).
  apply imap_ext. intros i x _. simpl. lia.
Qed.

Lemma elem_of_enumerate {A} (l : list A) (i : Z) (x : A) :
  (i, x) ∈ enumerate l ↔ 0 ≤ i ∧ l !! Z.to_nat i = Some x.
Proof.
  unfold enumerate. rewrite elem_of_lookup_imap. split.
  - intros (n & y & [= -> ->] & Hy). rewrite Nat2Z.id. split; [lia|done].
  - intros [Hi Hx]. exists (Z.to_nat i), x. split; [|done].
    f_equal. lia.
Qed.

Lemma remaining_positions (papers : list Paper) (sel : list Z) :
  (remaining_indexed papers sel).*1
  = filter (λ i, i ∉ sel) (seqZ 0 (Z.of_nat (length papers))).
Proof.
  unfold remaining_indexed.
  rewrite <- enumerate_fst.
  by apply (fst_filter_fst (λ i, i ∉ sel) (λ ip, ip.1 ∉ sel)).
Qed.

Lemma remaining_papers_length (papers : list Paper) (sel : list Z) :
  length (remaining_papers papers sel)
  = length (remaining_indexed papers sel).
Proof. unfold remaining_papers. by rewrite length_fmap. Qed.

(** The remainder and the distinct selected positions share out the
    positions of the corpus. *)
Lemma remainder_partition (papers : list Paper) (sel : list Z) :
  (remaining_indexed papers sel).*1
    ++ remove_dups (selected_positions papers sel)
  ≡ₚ seqZ 0 (Z.of_nat (length papers)).
Proof.
  rewrite remaining_positions. apply NoDup_Permutation.
  - apply NoDup_app. split_and!.
    + apply NoDup_filter, NoDup_seqZ.
    + intros i [Hi _]%list_elem_of_filter Hsel.
      rewrite elem_of_remove_dups in Hsel.
      by apply list_elem_of_filter in Hsel as [_ ?].
    + apply NoDup_remove_dups.
  - apply NoDup_seqZ.
  - intros i. rewrite elem_of_app, list_elem_of_filter, elem_of_remove_dups.
    unfold selected_positions. rewrite list_elem_of_filter, elem_of_seqZ.
    split.
    + intros [[_ ?]|[? _]]; lia.
    + intros Hi. destruct (decide (i ∈ sel)); [right|left]; (split; [done || lia|done || lia]).
Qed.

Lemma remaining_length (papers : list Paper) (sel : list Z) :
  (length (remaining_papers papers sel)
   + length (remove_dups (selected_positions papers sel)))%nat
  = length papers.
Proof.
  rewrite remaining_papers_length.
  rewrite <- (length_fmap fst (remaining_indexed papers sel)).
  rewrite <- length_app, remainder_partition, length_seqZ. lia.
Qed.

(** ** The narrative loop and the assembly *)

Lemma narrative_sections_S w j n :
  narrative_sections w j (S n)
  = option_list (narrative_section (narrative_reply w j))
    ++ narrative_sections w (S j) n.
Proof.
  unfold narrative_sections. simpl.
  by destruct (narrative_section (narrative_reply w j)).
Qed.

Lemma narrative_failures_cons w j paper rest :
  narrative_failures w j (paper :: rest)
  = option_list (narrative_failure w (j, paper))
    ++ narrative_failures w (S j) rest.
Proof.
  unfold narrative_failures. simpl.
  by destruct (narrative_failure w (j, paper)).
Qed.

Lemma print_cases w (l : line) :
  (prints w l ∧ print w l = Ok [l])
  ∨ (∃ m, print_error w l = Some m ∧ print w l = Raise (PrintError m)).
Proof.
  unfold print, prints. destruct (print_error w l) as [m|]; [right|left].
  - by exists m.
  - done.
Qed.

(** The loop either prints every failure line and returns the sections
    appended to the document, or stops at a line whose print raises. *)
Lemma summaries_cases w selected_papers j st :
  (Forall (prints w) (narrative_failures w j selected_papers)
   ∧ summaries w j selected_papers st
     = Ok (st.1 ++ mjoin (narrative_sections w j (length selected_papers)),
           st.2 ++ narrative_failures w j selected_papers))
  ∨ (∃ l m, l ∈ narrative_failures w j selected_papers
       ∧ print_error w l = Some m
       ∧ summaries w j selected_papers st = Raise (PrintError m)).
Proof.
  revert j st. induction selected_papers as [|paper rest IH]; intros j st.
  - left. split; [constructor|]. cbn. rewrite !app_nil_r. by destruct st.
  - cbn [summaries length].
    rewrite narrative_sections_S, narrative_failures_cons.
    unfold narrative_failure, narrative_section. cbn [fst snd].
    destruct (narrative_reply w j) as [t|e]; cbn [option_list app].
    + cbn [mbind result_bind].
      destruct (IH (S j) (st.1 ++ clean t, st.2)) as [[Hall ->]|Hraise].
      * left. split; [done|]. cbn [fst snd]. by rewrite <- app_assoc.
      * right. exact Hraise.
    + destruct (print_cases w (SummaryFailed (title paper)
                                 (GenerationError e)))
        as [[Hp ->]|(m & Hm & ->)]; cbn [mbind result_bind].
      * destruct (IH (S j) (st.1, st.2 ++ [SummaryFailed (title paper)
                                              (GenerationError e)]))
          as [[Hall ->]|(l & m & Hl & Hm & ->)].
        -- left. split; [by constructor|]. cbn [fst snd].
           by rewrite <- app_assoc.
        -- right. exists l, m. split; [by right|done].
      * right. eexists _, m. split; [by left|done].
Qed.

Lemma narrative_sections_length w j n :
  (length (narrative_sections w j n) ≤ n)%nat.
Proof.
  revert j. induction n as [|n IH]; intros j; [done|].
  rewrite narrative_sections_S, length_app.
  specialize (IH (S j)).
  destruct (narrative_section (narrative_reply w j)); simpl; lia.
Qed.

Lemma narrative_count w j selected_papers :
  (length (narrative_sections w j (length selected_papers))
   + length (narrative_failures w j selected_papers))%nat
  = length selected_papers.
Proof.
  revert j. induction selected_papers as [|paper rest IH]; intros j; [done|].
  cbn [length]. rewrite narrative_sections_S, narrative_failures_cons.
  rewrite !length_app. specialize (IH (S j)).
  unfold narrative_failure, narrative_section. simpl.
  destruct (narrative_reply w j); simpl; lia.
Qed.

Lemma foldl_bonus_items (html : str) (bonus : list Paper) :
  foldl (λ html paper, html ++ bonus_item paper) html bonus
  = html ++ mjoin (bonus_item <$> bonus).
Proof.
  revert html. induction bonus as [|paper bonus IH]; intros html; simpl.
  - by rewrite app_nil_r.
  - by rewrite IH, <- app_assoc.
Qed.

Lemma bonus_papers_drawn w all_papers selected_indices :
  bonus_papers w all_papers selected_indices
  = Ok (bonus_drawn w all_papers selected_indices).*2.
Proof.
  unfold bonus_papers, bonus_drawn. cbv zeta.
  rewrite random_sample_Ok by lia.
  unfold remaining_papers. by rewrite draw_fmap, length_fmap.
Qed.

Lemma create_summary_content_cases w selected_papers all_papers
    selected_indices out :
  (Forall (prints w) (narrative_failures w 0 selected_papers)
   ∧ _create_summary_content w selected_papers all_papers selected_indices
       out
     = Ok (assemble (today w)
             (narrative_sections w 0 (length selected_papers))
             (bonus_drawn w all_papers selected_indices).*2,
           out ++ narrative_failures w 0 selected_papers))
  ∨ (∃ l m, l ∈ narrative_failures w 0 selected_papers
       ∧ print_error w l = Some m
       ∧ _create_summary_content w selected_papers all_papers
           selected_indices out = Raise (PrintError m)).
Proof.
  unfold _create_summary_content.
  destruct (summaries_cases w selected_papers 0 (digest_header (today w), out))
    as [[Hall ->]|(l & m & Hl & Hm & ->)]; [left|right].
  - split; [done|]. cbn [mbind result_bind fst snd].
    rewrite bonus_papers_drawn. cbn [mbind result_bind mret result_ret].
    rewrite foldl_bonus_items. unfold assemble, bonus_section.
    by rewrite <- !app_assoc.
  - by exists l, m.
Qed.

(** ** Tokens are digit strings, and [int] reads them *)

Lemma flush_tokens rt (run tok : str) :
  Forall (λ c, is_Some (decimal rt c)) run → tok ∈ flush run →
  tok ≠ [] ∧ Forall (λ c, is_Some (decimal rt c)) tok.
Proof.
  intros Hrun. destruct run as [|c run]; simpl.
  - by intros ?%elem_of_nil.
  - intros ->%list_elem_of_singleton. split.
    + intros Hnil. apply (f_equal length) in Hnil.
      rewrite length_reverse in Hnil. done.
    + by apply Forall_reverse.
Qed.

Lemma findall_from_tokens rt (s run tok : str) :
  Forall (λ c, is_Some (decimal rt c)) run → tok ∈ findall_from rt run s →
  tok ≠ [] ∧ Forall (λ c, is_Some (decimal rt c)) tok.
Proof.
  revert run. induction s as [|c s IH]; intros run Hrun; simpl.
  - by apply flush_tokens.
  - unfold isdecimal. case_bool_decide as Hc.
    + apply IH. by constructor.
    + intros [Htok|Htok]%elem_of_app.
      * by apply (flush_tokens rt run).
      * by apply (IH []).
Qed.

Lemma int_of_token rt (tok : str) :
  tok ≠ [] → Forall (λ c, is_Some (decimal rt c)) tok →
  within_digit_limit rt tok → int rt tok = Ok (int_value rt tok).
Proof.
  intros Hne Hdig Hlim. unfold int.
  rewrite bool_decide_false.
  - by rewrite bool_decide_false.
  - intros [?|Hex]; [done|].
    apply Exists_exists in Hex as (c & Hc & Hnone).
    rewrite Forall_forall in Hdig. specialize (Hdig c Hc).
    rewrite Hnone in Hdig. by destruct Hdig.
Qed.

Lemma mapM_int_tokens rt (toks : list str) :
  Forall (λ tok, tok ≠ [] ∧ Forall (λ c, is_Some (decimal rt c)) tok) toks →
  Forall (within_digit_limit rt) toks →
  mapM (int rt) toks = Ok (int_value rt <$> toks).
Proof.
  induction 1 as [|tok toks [Hne Hdig] _ IH]; intros Hlim; [done|].
  apply Forall_cons in Hlim as [Hlim1 Hlim].
  change (mapM (int rt) (tok :: toks))
    with (int rt tok ≫= λ y, mapM (int rt) toks ≫= λ k, mret (y :: k)).
  by rewrite int_of_token, IH.
Qed.

Lemma first_ids_tokens rt (t : str) :
  Forall (λ tok, tok ≠ [] ∧ Forall (λ c, is_Some (decimal rt c)) tok)
         (first_ids rt t).
Proof.
  apply Forall_forall. intros tok Htok.
  apply (findall_from_tokens rt (strip t) []); [done|].
  unfold first_ids in Htok. by apply elem_of_take in Htok as (? & ?%list_elem_of_lookup_2 & _).
Qed.

(** A reply whose first three tokens pass the digit limit selects the
    papers at the valid positions among their values. *)
Lemma selection_of_text rt papers (t : str) :
  Forall (within_digit_limit rt) (first_ids rt t) →
  selection_outcome rt papers (Text t)
  = (papers_at papers
       (selected_positions papers (int_value rt <$> first_ids rt t)),
     int_value rt <$> first_ids rt t, []).
Proof.
  intros Hlim. apply selection_ok, selection_attempt_text.
  apply mapM_int_tokens; [apply first_ids_tokens|done].
Qed.

Lemma selection_text_Ok rt w papers (t : str) :
  Forall (within_digit_limit rt) (first_ids rt t) →
  selection rt w papers (Text t)
  = Ok (papers_at papers
          (selected_positions papers (int_value rt <$> first_ids rt t)),
        int_value rt <$> first_ids rt t, []).
Proof.
  intros Hlim. apply selection_attempt_Ok_selection.
  apply selection_attempt_text, mapM_int_tokens;
    [apply first_ids_tokens|done].
Qed.

(** A reply with a token over the digit limit among the first three makes
    [int] raise, and the selection falls back. *)
Lemma mapM_int_over_limit rt (toks : list str) :
  Forall (λ tok, tok ≠ [] ∧ Forall (λ c, is_Some (decimal rt c)) tok) toks →
  ¬ Forall (within_digit_limit rt) toks →
  ∃ n, mapM (int rt) toks = Raise (IntTooManyDigits n).
Proof.
  induction 1 as [|tok toks [Hne Hdig] _ IH]; intros Hlim.
  - by destruct Hlim.
  - change (mapM (int rt) (tok :: toks))
      with (int rt tok ≫= λ y, mapM (int rt) toks ≫= λ k, mret (y :: k)).
    destruct (decide (within_digit_limit rt tok)) as [Hin|Hout].
    + rewrite int_of_token by done.
      destruct IH as [n Hn]; [by intros ?; apply Hlim; constructor|].
      exists n. cbn [mbind result_bind]. by rewrite Hn.
    + exists (length tok). unfold int.
      rewrite bool_decide_false.
      * rewrite bool_decide_true; [done|].
        unfold within_digit_limit in Hout. by apply dec_stable.
      * intros [?|Hex]; [done|].
        apply Exists_exists in Hex as (c & Hc & Hnone).
        rewrite Forall_forall in Hdig. specialize (Hdig c Hc).
        rewrite Hnone in Hdig. by destruct Hdig.
Qed.

(** * The claims *)

(** ** C1: the response parser *)

(** C1 as stated does not hold.  For a corpus of ten papers and the reply
    "0, 2, 2, 5, 99" the selection returns the indices [0, 2, 2] and the
    papers at these positions, not those of [0, 2, 5]: only the first
    three tokens are read, and the repeated 2 is kept. *)
Lemma parser_example_counterexample :
  selection py_default
    (world (Text (lit "0, 2, 2, 5, 99")) (λ _, Fails []) (λ _, 0%nat))
    (corpus 10) (Text (lit "0, 2, 2, 5, 99"))
    = Ok (papers_at (corpus 10) [0; 2; 2], [0; 2; 2], [])
  ∧ selected_positions (corpus 10) [0; 2; 2] ≠ [0; 2; 5]
  ∧ papers_at (corpus 10) [0; 2; 2] ≠ papers_at (corpus 10) [0; 2; 5].
Proof. vm_compute. split_and!; [reflexivity|intros [=]|intros [=]]. Qed.

(** C1, amended.  For a corpus of ten papers and a reply whose tokens are
    0, 2, 2, 5, 99 the parser returns [0, 2, 2]: the first three tokens,
    the repeated 2 kept, 5 and 99 never read.  In general the selected
    indices are the values of the first three tokens of the reply, and the
    selected papers are those at the values within [0, N), in the order of
    the tokens: a value out of range is dropped, not clamped, and nothing
    is done about repetitions. *)
Theorem parser_reads_first_three_tokens (rt : Interp) (w : World)
    (papers : list Paper) :
  (∀ t, length papers = 10%nat →
     re_findall_digits rt (strip t)
       = [lit "0"; lit "2"; lit "2"; lit "5"; lit "99"] →
     selection rt w papers (Text t)
       = Ok (papers_at papers [0; 2; 2], [0; 2; 2], []))
  ∧ (∀ t, Forall (within_digit_limit rt) (first_ids rt t) →
     selection rt w papers (Text t)
       = Ok (papers_at papers
               (selected_positions papers (int_value rt <$> first_ids rt t)),
             int_value rt <$> first_ids rt t, []))
  ∧ (∀ idx, selected_positions papers idx `sublist_of` idx
       ∧ ∀ i, i ∈ selected_positions papers idx
              ↔ i ∈ idx ∧ 0 ≤ i < Z.of_nat (length papers)).
Proof.
  assert (∀ t, Forall (within_digit_limit rt) (first_ids rt t) →
     selection rt w papers (Text t)
       = Ok (papers_at papers
               (selected_positions papers (int_value rt <$> first_ids rt t)),
             int_value rt <$> first_ids rt t, [])) as Htext.
  { intros t Hlim. apply selection_attempt_Ok_selection.
    apply selection_attempt_text, mapM_int_tokens;
      [apply first_ids_tokens|done]. }
  split_and!.
  - intros t Hlen Htoks.
    assert (first_ids rt t = [lit "0"; lit "2"; lit "2"]) as Hids
      by (unfold first_ids; by rewrite Htoks).
    rewrite Htext; rewrite Hids.
    + unfold selected_positions. rewrite Hlen. reflexivity.
    + repeat constructor; unfold within_digit_limit; vm_compute; lia.
  - exact Htext.
  - intros idx. split.
    + apply sublist_filter.
    + intros i. unfold selected_positions. rewrite list_elem_of_filter.
      tauto.
Qed.

(** The example of C1 on the corpus of ten sample papers. *)
Lemma parser_reads_first_three_tokens_witness :
  selection py_default
    (world (Text (lit "0, 2, 2, 5, 99")) (λ _, Fails []) (λ _, 0%nat))
    (corpus 10) (Text (lit "0, 2, 2, 5, 99"))
  = Ok (papers_at (corpus 10) [0; 2; 2], [0; 2; 2], []).
Proof.
  apply (proj1 (parser_reads_first_three_tokens py_default _ (corpus 10))).
  - reflexivity.
  - vm_compute. reflexivity.
Defined.

(** ** C2: the fallback of the selection *)

(** C2 as stated does not hold.  A reply without digits, and a reply whose
    numbers are all out of range, leave the selection empty: no paper is
    selected and the fallback [0, 1, 2] is not used. *)
Lemma fallback_on_empty_parse_counterexample :
  selection py_default
    (world (Text (lit "none of them")) (λ _, Fails []) (λ _, 0%nat))
    (corpus 5) (Text (lit "none of them"))
    = Ok ([], [], [])
  ∧ selection py_default
      (world (Text (lit "17, 42")) (λ _, Fails []) (λ _, 0%nat))
      (corpus 5) (Text (lit "17, 42"))
    = Ok ([], [17; 42], [])
  ∧ selected_positions (corpus 5) [] ≠ [0; 1; 2]
  ∧ selected_positions (corpus 5) [17; 42] ≠ [0; 1; 2].
Proof. vm_compute. split_and!; (reflexivity || intros [=]). Qed.

(** C2, amended.  The selection falls back exactly when its [try] block
    raises: when the request fails or its response carries no text, and
    when one of the first three tokens is over the digit limit of [int].
    Provided the line that reports the failure is printed without an
    exception, the fallback selects the first three papers, that is the
    positions [0, 1, 2] cut down to the size of the corpus, which are
    distinct and in range; when that print raises, its exception leaves
    the handler and nothing is selected.  A reply that is read without an
    exception and holds no valid index (no digit, or only numbers out of
    range) selects no paper, and the fallback is not used. *)
Theorem selection_falls_back_on_exception (rt : Interp) (w : World)
    (papers : list Paper) :
  (∀ r e, selection_attempt rt papers r = Raise e →
     prints w (SelectionFailed e) →
     selection rt w papers r
     = Ok (take 3 papers, [0; 1; 2], [SelectionFailed e]))
  ∧ (∀ r e m, selection_attempt rt papers r = Raise e →
     print_error w (SelectionFailed e) = Some m →
     selection rt w papers r = Raise (PrintError m))
  ∧ (∀ e, selection_attempt rt papers (Fails e) = Raise (GenerationError e))
  ∧ (∀ t, ¬ Forall (within_digit_limit rt) (first_ids rt t) →
     ∃ n, selection_attempt rt papers (Text t) = Raise (IntTooManyDigits n))
  ∧ take 3 papers = papers_at papers (selected_positions papers [0; 1; 2])
  ∧ selected_positions papers [0; 1; 2]
    = seqZ 0 (Z.of_nat (3 `min` length papers))
  ∧ NoDup (selected_positions papers [0; 1; 2])
  ∧ (∀ t, Forall (within_digit_limit rt) (first_ids rt t) →
     Forall (λ i, ¬ 0 ≤ i < Z.of_nat (length papers))
            (int_value rt <$> first_ids rt t) →
     selection rt w papers (Text t)
     = Ok ([], int_value rt <$> first_ids rt t, []))
  ∧ (∀ t, (∀ c, c ∈ t → decimal rt c = None) →
     selection rt w papers (Text t) = Ok ([], [], [])).
Proof.
  assert (∀ t, Forall (within_digit_limit rt) (first_ids rt t) →
     selection rt w papers (Text t)
       = Ok (papers_at papers
               (selected_positions papers (int_value rt <$> first_ids rt t)),
             int_value rt <$> first_ids rt t, [])) as Htext.
  { intros t Hlim. apply selection_attempt_Ok_selection.
    apply selection_attempt_text, mapM_int_tokens;
      [apply first_ids_tokens|done]. }
  split_and!.
  - intros r e Hatt Hp.
    rewrite (selection_attempt_Raise_selection _ _ _ _ _ Hatt).
    by rewrite print_Ok.
  - intros r e m Hatt Hp.
    rewrite (selection_attempt_Raise_selection _ _ _ _ _ Hatt).
    by rewrite (print_Raise _ _ _ Hp).
  - done.
  - intros t Hlim. unfold selection_attempt. cbn [mbind result_bind].
    destruct (mapM_int_over_limit rt (first_ids rt t)) as [n Hn];
      [apply first_ids_tokens|done|].
    exists n. unfold first_ids in Hn. by rewrite Hn.
  - apply fallback_papers.
  - apply fallback_positions.
  - rewrite fallback_positions. apply NoDup_seqZ.
  - intros t Hlim Hout. rewrite Htext by done.
    assert (selected_positions papers (int_value rt <$> first_ids rt t) = [])
      as ->; [|done].
    unfold selected_positions.
    induction Hout as [|i idx Hi _ IH]; [done|].
    by rewrite filter_cons_False.
  - intros t Ht.
    assert (first_ids rt t = []) as Hids.
    { unfold first_ids. rewrite findall_no_digit; [done|].
      intros c Hc. by apply Ht, elem_of_strip. }
    rewrite Htext; rewrite Hids; done.
Qed.

(** C2 on sample data: a failed request on a corpus of two papers, a reply
    with numbers out of range, and a reply without digits. *)
Lemma selection_falls_back_on_exception_witness :
  selection py_default
    (world (Fails (lit "503")) (λ _, Fails []) (λ _, 0%nat))
    (corpus 2) (Fails (lit "503"))
    = Ok (corpus 2, [0; 1; 2],
          [SelectionFailed (GenerationError (lit "503"))])
  ∧ selection py_default
      (world (Fails (lit "503")) (λ _, Fails []) (λ _, 0%nat))
      (corpus 5) (Text (lit "17, 42"))
    = Ok ([], [17; 42], [])
  ∧ selection py_default
      (world (Fails (lit "503")) (λ _, Fails []) (λ _, 0%nat))
      (corpus 5) (Text (lit "none of them"))
    = Ok ([], [], []).
Proof.
  pose proof (selection_falls_back_on_exception py_default
                (world (Fails (lit "503")) (λ _, Fails []) (λ _, 0%nat))
                (corpus 2)) as (Hraise & _ & Hfails & _).
  pose proof (selection_falls_back_on_exception py_default
                (world (Fails (lit "503")) (λ _, Fails []) (λ _, 0%nat))
                (corpus 5)) as (_ & _ & _ & _ & _ & _ & _ & Hout & Hnone).
  split_and!.
  - apply (Hraise _ _ (Hfails (lit "503"))). reflexivity.
  - apply (Hout (lit "17, 42")).
    + repeat constructor; unfold within_digit_limit; vm_compute; lia.
    + repeat constructor; vm_compute; intros [? ?]; done.
  - apply (Hnone (lit "none of them")).
    intros c Hc. vm_compute in Hc.
    repeat (apply elem_of_cons in Hc as [->|Hc]; [reflexivity|]).
    by apply elem_of_nil in Hc.
Defined.

(** ** C3: the invariants of the SelectionResult *)

(** C3 as stated does not hold.  On a corpus of three papers the reply
    "2, 2" selects position 2 twice. *)
Lemma selection_distinct_counterexample :
  selection py_default
    (world (Text (lit "2, 2")) (λ _, Fails []) (λ _, 0%nat))
    (corpus 3) (Text (lit "2, 2"))
    = Ok (papers_at (corpus 3) [2; 2], [2; 2], [])
  ∧ ¬ NoDup (selected_positions (corpus 3) [2; 2]).
Proof.
  vm_compute. split; [reflexivity|].
  intros Hnd. apply NoDup_cons in Hnd as [Hnotin _].
  apply Hnotin. by left.
Qed.

(** C3, amended.  For every corpus of size N >= 3 and every reply of the
    service, failed ones included, the SelectionResult that the selection
    returns has at most three positions, each within [0, N), and the
    selected papers are the papers at these positions, one for each.  The
    positions need not be distinct: they repeat when the reply repeats a
    number. *)
Theorem selection_result_bounded (rt : Interp) (w : World)
    (papers : list Paper) (r : reply) (selected_papers : list Paper)
    (selected_indices : list Z) (out : list line) :
  (3 ≤ length papers)%nat →
  selection rt w papers r = Ok (selected_papers, selected_indices, out) →
  (length (selected_positions papers selected_indices) ≤ 3)%nat
  ∧ Forall (λ i, 0 ≤ i < Z.of_nat (length papers))
      (selected_positions papers selected_indices)
  ∧ selected_papers
    = papers_at papers (selected_positions papers selected_indices)
  ∧ length selected_papers
    = length (selected_positions papers selected_indices).
Proof.
  intros _ Hsel%selection_inv.
  destruct (selection_papers_at_positions rt papers r) as [Hat Hlen].
  rewrite Hsel in Hat, Hlen. cbn [fst snd] in Hat, Hlen.
  split_and!.
  - unfold selected_positions.
    etrans; [apply length_filter|done].
  - apply selected_positions_in_range.
  - done.
  - rewrite Hat at 1. apply papers_at_length, selected_positions_in_range.
Qed.

(** C3 on the corpus of three sample papers and the reply "2, 2". *)
Lemma selection_result_bounded_witness :
  (length (selected_positions (corpus 3) [2; 2]%Z) ≤ 3)%nat
  ∧ Forall (λ i, 0 ≤ i < Z.of_nat (length (corpus 3)))
      (selected_positions (corpus 3) [2; 2]).
Proof.
  pose proof (selection_result_bounded py_default
                (world (Text (lit "2, 2")) (λ _, Fails []) (λ _, 0%nat))
                (corpus 3) (Text (lit "2, 2"))
                (papers_at (corpus 3) [2; 2]) [2; 2] []) as H.
  destruct H as (Hlen & Hrange & _);
    [vm_compute; lia|vm_compute; reflexivity|].
  exact (conj Hlen Hrange).
Defined.

(** ** C4 and C5: the bonus set *)

Lemma NoDup_of_submseteq {A} (l k : list A) : l ⊆+ k → NoDup k → NoDup l.
Proof.
  intros [k' Hk']%submseteq_Permutation Hnd. rewrite Hk' in Hnd.
  by apply NoDup_app in Hnd as [? _].
Qed.

Lemma remove_dups_NoDup {A} `{EqDecision A} (l : list A) :
  NoDup l → remove_dups l = l.
Proof.
  induction 1 as [|x l Hx _ IH]; simpl; [done|].
  destruct (decide_rel elem_of x l); [done|]. by rewrite IH.
Qed.

Lemma selected_positions_all (papers : list Paper) (idx : list Z) :
  Forall (λ i, 0 ≤ i < Z.of_nat (length papers)) idx →
  selected_positions papers idx = idx.
Proof.
  unfold selected_positions. induction 1 as [|i idx Hi _ IH]; [done|].
  rewrite filter_cons_True by done. by rewrite IH.
Qed.

Lemma bonus_drawn_remaining w (papers : list Paper) (sel : list Z) :
  bonus_drawn w papers sel ⊆+ remaining_indexed papers sel.
Proof. apply draw_submseteq. Qed.

Lemma bonus_drawn_length w (papers : list Paper) (sel : list Z) :
  length (bonus_drawn w papers sel)
  = (3 `min` length (remaining_papers papers sel))%nat.
Proof.
  unfold bonus_drawn. cbv zeta. rewrite draw_length by lia.
  by rewrite remaining_papers_length.
Qed.

(** C4.  For every corpus, every list of selected indices and every output
    of the random number generator, the draw succeeds, the positions drawn
    are pairwise distinct positions of the corpus, each bonus paper is the
    paper at its position, and no position drawn is a selected index, nor
    therefore a position of the SelectionResult: the draw is made on the
    remainder computed beforehand. *)
Theorem bonus_disjoint_from_selection (w : World) (papers : list Paper)
    (selected_indices : list Z) :
  bonus_papers w papers selected_indices
    = Ok (bonus_drawn w papers selected_indices).*2
  ∧ bonus_drawn w papers selected_indices
      ⊆+ remaining_indexed papers selected_indices
  ∧ NoDup (bonus_drawn w papers selected_indices).*1
  ∧ ∀ i paper, (i, paper) ∈ bonus_drawn w papers selected_indices →
      (i ∉ selected_indices)
      ∧ (i ∉ selected_positions papers selected_indices)
      ∧ 0 ≤ i < Z.of_nat (length papers)
      ∧ papers !! Z.to_nat i = Some paper.
Proof.
  split_and!.
  - apply bonus_papers_drawn.
  - apply bonus_drawn_remaining.
  - unfold bonus_drawn. cbv zeta. rewrite <- draw_fmap.
    eapply NoDup_of_submseteq; [apply draw_submseteq|].
    rewrite remaining_positions. apply NoDup_filter, NoDup_seqZ.
  - intros i paper Hin.
    pose proof (elem_of_submseteq _ _ _ Hin
                  (bonus_drawn_remaining w papers selected_indices)) as Hrem.
    unfold remaining_indexed in Hrem.
    apply list_elem_of_filter in Hrem as [Hnotin Henum]. simpl in Hnotin.
    apply elem_of_enumerate in Henum as [Hpos Hlook].
    split_and!; [done| |lia| |done].
    + intros [_ ?]%list_elem_of_filter. done.
    + apply lookup_lt_Some in Hlook. lia.
Qed.

(** C5 as stated does not hold.  On a corpus of four papers the reply
    "2, 2" gives a SelectionResult of two positions, so that
    min(3, N - |SelectionResult|) is 2, while the remainder holds the three
    positions 0, 1, 3 and three bonus papers are drawn. *)
Lemma bonus_size_counterexample :
  selection py_default
    (world (Text (lit "2, 2")) (λ _, Fails []) (λ _, 0%nat))
    (corpus 4) (Text (lit "2, 2"))
    = Ok (papers_at (corpus 4) [2; 2], [2; 2], [])
  ∧ selected_positions (corpus 4) [2; 2] = [2; 2]
  ∧ bonus_papers (world (Text (lit "2, 2")) (λ _, Fails []) (λ _, 0%nat))
      (corpus 4) [2; 2]
    = Ok (papers_at (corpus 4) [0; 1; 3])
  ∧ length (papers_at (corpus 4) [0; 1; 3])
    ≠ (3 `min` (length (corpus 4) - length [2; 2]))%nat.
Proof. vm_compute. split_and!; (reflexivity || intros [=]). Qed.

(** C5, amended.  For every corpus of size N and every list of selected
    indices the draw succeeds and the BonusSet has size exactly
    min(3, |remainder|), which is min(3, N - d) for d the number of
    distinct positions of the SelectionResult; it is
    min(3, N - |SelectionResult|) when the selected indices are pairwise
    distinct and within [0, N).  The bonus papers are drawn without
    replacement from the remainder. *)
Theorem bonus_size (w : World) (papers : list Paper)
    (selected_indices : list Z) :
  ∃ bonus,
    bonus_papers w papers selected_indices = Ok bonus
    ∧ bonus = (bonus_drawn w papers selected_indices).*2
    ∧ bonus_drawn w papers selected_indices
        ⊆+ remaining_indexed papers selected_indices
    ∧ length bonus
      = (3 `min` length (remaining_papers papers selected_indices))%nat
    ∧ length bonus
      = (3 `min` (length papers
                  - length (remove_dups
                      (selected_positions papers selected_indices))))%nat
    ∧ (NoDup selected_indices →
       Forall (λ i, 0 ≤ i < Z.of_nat (length papers)) selected_indices →
       length bonus
       = (3 `min` (length papers - length selected_indices))%nat).
Proof.
  exists (bonus_drawn w papers selected_indices).*2.
  pose proof (remaining_length papers selected_indices) as Hlen.
  pose proof (bonus_drawn_length w papers selected_indices) as Hdrawn.
  rewrite length_fmap.
  split_and!.
  - apply bonus_papers_drawn.
  - done.
  - apply bonus_drawn_remaining.
  - done.
  - lia.
  - intros Hnd Hrange.
    rewrite selected_positions_all, remove_dups_NoDup in Hlen by done. lia.
Qed.

(** C5 on the corpus of five sample papers with positions 1 and 3
    selected: three bonus papers are drawn, and 3 = min(3, 5 - 2). *)
Lemma bonus_size_witness :
  ∃ bonus,
    bonus_papers (world (Text (lit "1, 3")) (λ _, Fails []) (λ _, 0%nat))
      (corpus 5) [1; 3] = Ok bonus
    ∧ length bonus = (3 `min` (length (corpus 5) - length [1; 3]))%nat.
Proof.
  destruct (bonus_size (world (Text (lit "1, 3")) (λ _, Fails [])
                          (λ _, 0%nat)) (corpus 5) [1; 3])
    as (bonus & Hok & _ & _ & _ & _ & Hsize).
  exists bonus. split; [exact Hok|]. apply Hsize.
  - vm_compute. repeat constructor; intros Hin;
      repeat (apply elem_of_cons in Hin as [Heq|Hin]; [done|]);
      by apply elem_of_nil in Hin.
  - repeat constructor; vm_compute; done.
Defined.

(** ** C6: failures of the narrative requests *)

Lemma narrative_sections_app w j n m :
  narrative_sections w j (n + m)
  = narrative_sections w j n ++ narrative_sections w (j + n) m.
Proof. unfold narrative_sections. by rewrite seq_app, omap_app. Qed.

Lemma narrative_sections_split w n j :
  (j < n)%nat →
  narrative_sections w 0 n
  = narrative_sections w 0 j
    ++ option_list (narrative_section (narrative_reply w j))
    ++ narrative_sections w (S j) (n - S j).
Proof.
  intros Hj. replace n with (j + S (n - S j))%nat at 1 by lia.
  by rewrite narrative_sections_app, narrative_sections_S.
Qed.

Lemma assemble_document (today : str) (sections : list str)
    (bonus : list Paper) :
  assemble today sections bonus = document today sections bonus.
Proof.
  unfold assemble, document, bonus_section, digest_header, bonus_heading.
  rewrite <- !app_assoc. done.
Qed.

(** [generate_digest] either prints all its lines and returns the
    document, or raises what one of its prints raised. *)
Lemma generate_digest_cases rt w papers :
  (Forall (prints w) (digest_lines rt w papers)
   ∧ generate_digest rt w papers
     = Ok (assemble (today w)
             (narrative_sections w 0
                (length (selection_outcome rt papers
                           (selection_reply w)).1.1))
             (bonus_drawn w papers
                (selection_outcome rt papers (selection_reply w)).1.2).*2,
           digest_lines rt w papers))
  ∨ (∃ l m, l ∈ digest_lines rt w papers
       ∧ print_error w l = Some m
       ∧ generate_digest rt w papers = Raise (PrintError m)).
Proof.
  unfold generate_digest, digest_lines.
  destruct (selection_cases rt w papers (selection_reply w))
    as [[Hsel ->]|(l & m & Hl & Hm & ->)].
  - destruct (selection_outcome rt papers (selection_reply w))
      as [[sp si] out]. cbn [mbind result_bind fst snd] in *.
    destruct (create_summary_content_cases w sp papers si out)
      as [[Hall ->]|(l & m & Hl & Hm & ->)]; [left|right].
    + split; [by apply Forall_app|done].
    + exists l, m. split; [|done]. apply elem_of_app. by right.
  - right. exists l, m. split; [|done]. apply elem_of_app. by left.
Qed.

(** C6 as stated does not hold.  The failure of a narrative request is
    printed inside the handler; in a world where that print raises (a
    title or a message the output stream cannot encode), the exception
    leaves the loop: the papers after it are not processed and the error
    reaches the caller of [generate_digest]. *)
Lemma narrative_failure_counterexample :
  summaries
    (with_failing_print
       (world (Text (lit "1, 3")) (λ _, Fails (lit "503")) (λ _, 0%nat))
       (lit "UnicodeEncodeError"))
    0 (papers_at (corpus 5) [1; 3]) (lit "<hr>", [])
    = Raise (PrintError (lit "UnicodeEncodeError"))
  ∧ generate_digest py_default
      (with_failing_print
         (world (Text (lit "1, 3")) (λ _, Fails (lit "503")) (λ _, 0%nat))
         (lit "UnicodeEncodeError"))
      (corpus 5)
    = Raise (PrintError (lit "UnicodeEncodeError")).
Proof. vm_compute. split; reflexivity. Qed.

(** C6, amended.  For every list of selected papers and every pattern of
    failures of the narrative requests whose failure lines are printed
    without an exception, the loop returns: it appends to the document
    exactly the cleaned replies of the requests that succeeded, in the
    order of the selected papers, and prints one line for each request that
    failed.  Every selected paper is handled, as a section or as a failure
    line, so there are at most as many sections as selected papers; what
    paper j contributes depends on its own request only; and
    [_create_summary_content] returns the document made of the header,
    these sections and the bonus reading, and raises nothing. *)
Theorem narrative_failure_skips_one_item (w : World)
    (selected_papers : list Paper) (st : str * list line) :
  Forall (prints w) (narrative_failures w 0 selected_papers) →
  summaries w 0 selected_papers st
    = Ok (st.1 ++ mjoin (narrative_sections w 0 (length selected_papers)),
          st.2 ++ narrative_failures w 0 selected_papers)
  ∧ (length (narrative_sections w 0 (length selected_papers))
     ≤ length selected_papers)%nat
  ∧ (length (narrative_sections w 0 (length selected_papers))
     + length (narrative_failures w 0 selected_papers))%nat
    = length selected_papers
  ∧ (∀ j, (j < length selected_papers)%nat →
       narrative_sections w 0 (length selected_papers)
       = narrative_sections w 0 j
         ++ option_list (narrative_section (narrative_reply w j))
         ++ narrative_sections w (S j) (length selected_papers - S j))
  ∧ (∀ papers indices out,
       _create_summary_content w selected_papers papers indices out
       = Ok (document (today w)
               (narrative_sections w 0 (length selected_papers))
               (bonus_drawn w papers indices).*2,
             out ++ narrative_failures w 0 selected_papers)).
Proof.
  intros Hprints. split_and!.
  - destruct (summaries_cases w selected_papers 0 st)
      as [[_ ->]|(l & m & Hl & Hm & _)]; [done|].
    rewrite Forall_forall in Hprints. specialize (Hprints l Hl).
    unfold prints in Hprints. congruence.
  - apply narrative_sections_length.
  - apply narrative_count.
  - intros j Hj. by apply narrative_sections_split.
  - intros papers indices out. rewrite <- assemble_document.
    destruct (create_summary_content_cases w selected_papers papers
                indices out) as [[_ ->]|(l & m & Hl & Hm & _)]; [done|].
    rewrite Forall_forall in Hprints. specialize (Hprints l Hl).
    unfold prints in Hprints. congruence.
Qed.

(** C6 on the scenario of the specification: papers 1 and 3 of five are
    selected, the request for paper 1 succeeds and the one for paper 3
    fails; one section is kept and one line is printed. *)
Lemma narrative_failure_skips_one_item_witness :
  summaries
    (world (Text (lit "1, 3"))
       (λ j, if decide (j = 0%nat) then Text (lit "```html<div>one</div>```")
             else Fails (lit "503"))
       (λ _, 0%nat))
    0 (papers_at (corpus 5) [1; 3]) (lit "<hr>", [])
  = Ok (lit "<hr><div>one</div>",
        [SummaryFailed (title (paper_n 3)) (GenerationError (lit "503"))]).
Proof.
  etrans; [apply narrative_failure_skips_one_item|].
  - vm_compute. repeat constructor.
  - vm_compute. reflexivity.
Defined.

(** ** C7: no narrative at all *)

Lemma narrative_sections_all_fail w j n :
  (∀ i, (j ≤ i < j + n)%nat → ∃ e, narrative_reply w i = Fails e) →
  narrative_sections w j n = [].
Proof.
  revert j. induction n as [|n IH]; intros j Hfail; [done|].
  rewrite narrative_sections_S.
  destruct (Hfail j) as [e ->]; [lia|]. simpl.
  apply IH. intros i Hi. apply Hfail. lia.
Qed.

(** C7 as stated does not hold.  With every narrative request failing,
    each failure is printed; in a world where that print raises, no
    document is produced and the exception leaves [generate_digest]. *)
Lemma digest_without_narratives_counterexample :
  generate_digest py_default
    (with_failing_print
       (world (Text (lit "0, 1, 2")) (λ _, Fails (lit "503")) (λ _, 0%nat))
       (lit "UnicodeEncodeError"))
    (corpus 5)
  = Raise (PrintError (lit "UnicodeEncodeError")).
Proof. vm_compute. reflexivity. Qed.

(** C7, amended.  For every corpus and every selection that
    [generate_digest] makes, if the narrative request fails for every
    selected paper and the line of each failure is printed without an
    exception, the digest is still a document, and not an empty one: the
    title "Daily AI Research Digest" and the date, followed at once by
    the divider, the heading of the bonus reading and the list of the
    papers drawn. *)
Theorem digest_survives_narrative_failure (rt : Interp) (w : World)
    (papers selected_papers : list Paper) (selected_indices : list Z)
    (printed : list line) :
  selection rt w papers (selection_reply w)
    = Ok (selected_papers, selected_indices, printed) →
  (∀ j, (j < length selected_papers)%nat →
        ∃ e, narrative_reply w j = Fails e) →
  Forall (prints w) (narrative_failures w 0 selected_papers) →
  ∃ bonus,
    generate_digest rt w papers
      = Ok (lit "<h1>Daily AI Research Digest</h1><p>" ++ today w
            ++ lit "</p><hr>"
            ++ lit "<hr><h2>" ++ [128218%N]
            ++ lit " Read More Good Articles</h2>"
            ++ lit "<ul style='line-height: 1.8;'>"
            ++ mjoin ((λ p, lit "<li><a href='" ++ url p
                            ++ lit "' style='color: #3498db;'>" ++ title p
                            ++ lit "</a></li>") <$> bonus)
            ++ lit "</ul>",
            printed ++ narrative_failures w 0 selected_papers)
    ∧ bonus_papers w papers selected_indices = Ok bonus
    ∧ (length selected_papers
       = length (narrative_failures w 0 selected_papers)).
Proof.
  intros Hsel Hfail Hprints.
  exists (bonus_drawn w papers selected_indices).*2.
  assert (narrative_sections w 0 (length selected_papers) = []) as Hnone
    by (apply narrative_sections_all_fail; intros i Hi; apply Hfail; lia).
  split_and!.
  - unfold generate_digest. rewrite Hsel. cbn [mbind result_bind].
    destruct (create_summary_content_cases w selected_papers papers
                selected_indices printed)
      as [[_ ->]|(l & m & Hl & Hm & _)].
    + by rewrite assemble_document, Hnone.
    + rewrite Forall_forall in Hprints. specialize (Hprints l Hl).
      unfold prints in Hprints. congruence.
  - apply bonus_papers_drawn.
  - pose proof (narrative_count w 0 selected_papers) as Hcount.
    rewrite Hnone in Hcount. simpl in Hcount. lia.
Qed.

(** C7 when the service is down altogether: the selection falls back to
    the first three of five papers, no narrative is written, and the
    digest holds the header and the two papers left as bonus reading. *)
Lemma digest_survives_narrative_failure_witness :
  ∃ out,
    generate_digest py_default
      (world (Fails (lit "503")) (λ _, Fails (lit "503")) (λ _, 0%nat))
      (corpus 5)
    = Ok (document (lit "January 01, 2026") []
            (papers_at (corpus 5) [3; 4]), out).
Proof.
  destruct (digest_survives_narrative_failure py_default
              (world (Fails (lit "503")) (λ _, Fails (lit "503"))
                 (λ _, 0%nat)) (corpus 5) (take 3 (corpus 5)) [0; 1; 2]
              [SelectionFailed (GenerationError (lit "503"))])
    as (bonus & Hdigest & Hbonus & _).
  - vm_compute. reflexivity.
  - intros j _. by exists (lit "503").
  - vm_compute. repeat constructor.
  - eexists. vm_compute in Hbonus. injection Hbonus as <-.
    exact Hdigest.
Defined.

(** ** C9: the assembly is a function of its inputs *)

(** C9.  Two runs of [_create_summary_content], whatever their worlds,
    corpora and selections, that have the same date, the same narrative
    sections and the same bonus papers in the same order return the same
    document, character for character: the header, the sections and the
    bonus section put together by [assemble].  Both runs return it when
    their failure lines are printed without an exception, and whenever both
    return, the documents are the same. *)
Theorem assembly_is_deterministic (w w' : World)
    (selected selected' papers papers' : list Paper)
    (indices indices' : list Z) (out out' : list line)
    (bonus : list Paper) :
  today w = today w' →
  narrative_sections w 0 (length selected)
    = narrative_sections w' 0 (length selected') →
  bonus_papers w papers indices = Ok bonus →
  bonus_papers w' papers' indices' = Ok bonus →
  (Forall (prints w) (narrative_failures w 0 selected) →
   Forall (prints w') (narrative_failures w' 0 selected') →
   ∃ html o o',
     _create_summary_content w selected papers indices out = Ok (html, o)
     ∧ _create_summary_content w' selected' papers' indices' out'
       = Ok (html, o')
     ∧ html
       = assemble (today w) (narrative_sections w 0 (length selected)) bonus)
  ∧ (∀ html o html' o',
       _create_summary_content w selected papers indices out = Ok (html, o) →
       _create_summary_content w' selected' papers' indices' out'
         = Ok (html', o') →
       html = html'
       ∧ html
         = assemble (today w) (narrative_sections w 0 (length selected))
             bonus).
Proof.
  intros Hday Hsections Hbonus Hbonus'.
  rewrite bonus_papers_drawn in Hbonus, Hbonus'.
  injection Hbonus as Hbonus. injection Hbonus' as Hbonus'.
  destruct (create_summary_content_cases w selected papers indices out)
    as [[Hall H1]|(l & m & Hl & Hm & H1)];
  destruct (create_summary_content_cases w' selected' papers' indices' out')
    as [[Hall' H2]|(l' & m' & Hl' & Hm' & H2)];
  rewrite H1, H2, ?Hbonus, ?Hbonus', <- ?Hday, <- ?Hsections; split.
  all: try (intros html o html' o' ? ?; simplify_eq; done).
  - intros _ _. by eexists _, _, _.
  - intros _ Hp. rewrite Forall_forall in Hp. specialize (Hp l' Hl').
    unfold prints in Hp. congruence.
  - intros Hp _. rewrite Forall_forall in Hp. specialize (Hp l Hl).
    unfold prints in Hp. congruence.
  - intros Hp _. rewrite Forall_forall in Hp. specialize (Hp l Hl).
    unfold prints in Hp. congruence.
Qed.

(** C9 on two runs that differ in the selection and in which request fails
    but agree on the date, the one section written and the bonus papers. *)
Lemma assembly_is_deterministic_witness :
  ∃ html o o',
    _create_summary_content
      (world (Text (lit "1, 3"))
         (λ j, if decide (j = 0%nat) then Text (lit "<div>one</div>")
               else Fails (lit "503"))
         (λ _, 0%nat))
      (papers_at (corpus 5) [1; 3]) (corpus 5) [1; 3] [] = Ok (html, o)
    ∧ _create_summary_content
        (world (Text (lit "3, 1"))
           (λ j, if decide (j = 1%nat) then Text (lit "<div>one</div>")
                 else Fails (lit "timeout"))
           (λ _, 0%nat))
        (papers_at (corpus 5) [3; 1]) (corpus 5) [3; 1] [] = Ok (html, o').
Proof.
  destruct (assembly_is_deterministic
              (world (Text (lit "1, 3"))
                 (λ j, if decide (j = 0%nat) then Text (lit "<div>one</div>")
                       else Fails (lit "503"))
                 (λ _, 0%nat))
              (world (Text (lit "3, 1"))
                 (λ j, if decide (j = 1%nat) then Text (lit "<div>one</div>")
                       else Fails (lit "timeout"))
                 (λ _, 0%nat))
              (papers_at (corpus 5) [1; 3]) (papers_at (corpus 5) [3; 1])
              (corpus 5) (corpus 5) [1; 3] [3; 1] [] []
              (papers_at (corpus 5) [0; 2; 4]))
    as [Hboth _].
  - reflexivity.
  - vm_compute. reflexivity.
  - vm_compute. reflexivity.
  - vm_compute. reflexivity.
  - destruct Hboth as (html & o & o' & H1 & H2 & _).
    + vm_compute. repeat constructor.
    + vm_compute. repeat constructor.
    + exists html, o, o'. exact (conj H1 H2).
Defined.

(** ** C10: the pipeline is total *)

Lemma bonus_drawn_nil w papers indices :
  remaining_papers papers indices = [] → bonus_drawn w papers indices = [].
Proof.
  intros Hnil. apply nil_length_inv.
  by rewrite bonus_drawn_length, Hnil.
Qed.

(** C10.  For every corpus, the empty one included, every world and every
    reply: the selection indexes the corpus under the guard only, so the
    papers it returns are the papers at the valid positions (those among
    the values of the first three tokens, for a reply that is read) and no
    index error arises; its fallback is the slice of the first min(3, N)
    papers; the draw asks for min(3, |remainder|) papers and never
    raises; hence the only exception that leaves the selection or
    [generate_digest] is one raised by a print in a handler, and when the
    prints raise nothing a document is returned.  The document is the
    header, the sections and the bonus reading; when the remainder is
    empty it ends with the divider, the heading and an empty list. *)
Theorem digest_pipeline_is_total (rt : Interp) (w : World)
    (papers : list Paper) :
  (∀ r e, selection rt w papers r = Raise e →
     ∃ l m, e = PrintError m ∧ print_error w l = Some m)
  ∧ (∀ r sp si pr, selection rt w papers r = Ok (sp, si, pr) →
     sp = papers_at papers (selected_positions papers si)
     ∧ mapM (getitem papers) (selected_positions papers si) = Ok sp)
  ∧ (∀ t, Forall (within_digit_limit rt) (first_ids rt t) →
     selection rt w papers (Text t)
     = Ok (papers_at papers
             (selected_positions papers (int_value rt <$> first_ids rt t)),
           int_value rt <$> first_ids rt t, []))
  ∧ (∀ r e, selection_attempt rt papers r = Raise e →
     prints w (SelectionFailed e) →
     selection rt w papers r
       = Ok (take 3 papers, [0; 1; 2], [SelectionFailed e])
     ∧ length (take 3 papers) = (3 `min` length papers)%nat)
  ∧ (∀ e, generate_digest rt w papers = Raise e →
     ∃ l m, e = PrintError m ∧ print_error w l = Some m)
  ∧ ((∀ l, prints w l) →
     ∃ html out, generate_digest rt w papers = Ok (html, out))
  ∧ (∀ sp si pr html out,
       selection rt w papers (selection_reply w) = Ok (sp, si, pr) →
       generate_digest rt w papers = Ok (html, out) →
       ∃ bonus,
         bonus_papers w papers si = Ok bonus
         ∧ length bonus = (3 `min` length (remaining_papers papers si))%nat
         ∧ html
           = document (today w) (narrative_sections w 0 (length sp)) bonus
         ∧ (remaining_papers papers si = [] →
            html
            = lit "<h1>Daily AI Research Digest</h1><p>" ++ today w
              ++ lit "</p><hr>"
              ++ mjoin (narrative_sections w 0 (length sp))
              ++ lit "<hr><h2>" ++ [128218%N]
              ++ lit " Read More Good Articles</h2>"
              ++ lit "<ul style='line-height: 1.8;'>" ++ lit "</ul>")).
Proof.
  split_and!.
  - intros r e Hraise.
    destruct (selection_cases rt w papers r)
      as [[_ Hok]|(l & m & _ & Hm & Hr)]; [congruence|].
    exists l, m. split; [congruence|done].
  - intros r sp si pr Hsel%selection_inv.
    destruct (selection_papers_at_positions rt papers r) as [Hat _].
    rewrite Hsel in Hat. cbn [fst snd] in Hat. split; [done|].
    rewrite Hat. apply mapM_getitem_guarded, selected_positions_in_range.
  - intros t. apply selection_text_Ok.
  - intros r e Hatt Hp. split; [|rewrite length_take; lia].
    rewrite (selection_attempt_Raise_selection _ _ _ _ _ Hatt).
    by rewrite print_Ok.
  - intros e Hraise.
    destruct (generate_digest_cases rt w papers)
      as [[_ Hok]|(l & m & _ & Hm & Hr)]; [congruence|].
    exists l, m. split; [congruence|done].
  - intros Hprints.
    destruct (generate_digest_cases rt w papers)
      as [[_ Hok]|(l & m & _ & Hm & _)]; [by eexists _, _|].
    specialize (Hprints l). unfold prints in Hprints. congruence.
  - intros sp si pr html out Hsel Hgen.
    exists (bonus_drawn w papers si).*2.
    unfold generate_digest in Hgen. rewrite Hsel in Hgen.
    cbn [mbind result_bind] in Hgen.
    destruct (create_summary_content_cases w sp papers si pr)
      as [[_ Hok]|(l & m & _ & _ & Hr)]; [|congruence].
    rewrite Hok in Hgen. injection Hgen as <- <-.
    split_and!.
    + apply bonus_papers_drawn.
    + rewrite length_fmap. apply bonus_drawn_length.
    + apply assemble_document.
    + intros Hnil. rewrite assemble_document, bonus_drawn_nil by done.
      reflexivity.
Qed.

(** C10 on a corpus of three papers which the reply selects all: the
    remainder is empty and the bonus list of the digest is empty. *)
Lemma digest_pipeline_is_total_witness :
  ∃ out,
    generate_digest py_default
      (world (Text (lit "0, 1, 2")) (λ _, Text (lit "<div></div>"))
         (λ _, 7%nat)) (corpus 3)
    = Ok (lit "<h1>Daily AI Research Digest</h1><p>January 01, 2026</p><hr>"
          ++ lit "<div></div><div></div><div></div>"
          ++ lit "<hr><h2>" ++ [128218%N]
          ++ lit " Read More Good Articles</h2>"
          ++ lit "<ul style='line-height: 1.8;'></ul>", out).
Proof.
  destruct (digest_pipeline_is_total py_default
              (world (Text (lit "0, 1, 2")) (λ _, Text (lit "<div></div>"))
                 (λ _, 7%nat)) (corpus 3))
    as (_ & _ & _ & _ & _ & Hok & Hshape).
  destruct Hok as (html & out & Hgen); [done|].
  destruct (Hshape (corpus 3) [0; 1; 2] [] html out)
    as (bonus & _ & _ & _ & Hempty); [vm_compute; reflexivity|done|].
  exists out. rewrite Hgen, Hempty by (vm_compute; reflexivity).
  vm_compute. reflexivity.
Defined.

(** ** C8: validation of the configuration at startup *)

Lemma split_comma_cons (s : str) :
  ∃ piece pieces, split_comma s = piece :: pieces.
Proof.
  induction s as [|c s (piece & pieces & IH)]; simpl; [by eexists _, _|].
  case_bool_decide; [by eexists _, _|]. rewrite IH. by eexists _, _.
Qed.

(** The recipients never count in [validate]: the list that [split]
    returns is never empty, so its entry in the list given to [all] is
    always true. *)
Lemma validate_ignores_receivers (env : gmap string str) :
  truthy_list (receiver_emails (Config.__init__ env)) = true.
Proof.
  simpl. by destruct (split_comma_cons (getenv_default env "RECEIVER_EMAILS" []))
    as (piece & pieces & ->).
Qed.

(** A credential that is missing or empty is fatal at startup. *)
Lemma validate_requires_credentials (rt : Interp) (w : World)
    (env : gmap string str) :
  truthy_str (getenv env "GEMINI_API_KEY") = false
  ∨ truthy_str (getenv env "EMAIL_ADDRESS") = false
  ∨ truthy_str (getenv env "EMAIL_PASSWORD") = false →
  DailyDigestApp.__init__ env = Raise MissingEnvironment
  ∧ DailyDigestApp.main rt w env = Raise MissingEnvironment.
Proof.
  intros Hmiss.
  assert (DailyDigestApp.__init__ env = Raise MissingEnvironment) as Hinit.
  { unfold DailyDigestApp.__init__, validate. cbn [forallb gemini_api_key email_address
      email_password receiver_emails Config.__init__].
    destruct Hmiss as [-> | [-> | ->]]; simpl;
      rewrite ?andb_false_r; done. }
  split; [done|]. unfold DailyDigestApp.main. by rewrite Hinit.
Qed.

(** With the three credentials in place startup succeeds, whatever
    RECEIVER_EMAILS holds and whether it is set at all. *)
Lemma startup_with_credentials (env : gmap string str) :
  truthy_str (getenv env "GEMINI_API_KEY") = true →
  truthy_str (getenv env "EMAIL_ADDRESS") = true →
  truthy_str (getenv env "EMAIL_PASSWORD") = true →
  DailyDigestApp.__init__ env = Ok (Config.__init__ env).
Proof.
  intros Hkey Haddr Hpass.
  pose proof (validate_ignores_receivers env) as Hrecv.
  unfold DailyDigestApp.__init__, validate.
  cbn [forallb gemini_api_key email_address email_password Config.__init__].
  cbn [gemini_api_key email_address email_password Config.__init__] in *.
  unfold id. by rewrite Hkey, Haddr, Hpass, Hrecv.
Qed.

(** The run when nothing raises: the fetch, the prints and the building of
    the message. *)
Lemma run_quiet (rt : Interp) (w : World) (config : Configuration) :
  (∀ l, prints w l) → fetch_error w = None → (∀ c, mime_error w c = None) →
  ∃ digest_html,
    generate_digest rt w (fetched w)
      = Ok (digest_html, digest_lines rt w (fetched w))
    ∧ DailyDigestApp.run rt w config
      = Ok (match smtp_error w with
            | None =>
                Some {| receivers := receiver_emails config;
                        subject := lit "AI Research Digest - " ++ today_iso w;
                        html_content := digest_html |}
            | Some _ => None
            end,
            [FetchingPapers; GeneratingDigest]
            ++ digest_lines rt w (fetched w) ++ [SendingEmail]
            ++ match smtp_error w with
               | None => []
               | Some e => [ErrorSendingEmail e]
               end
            ++ [Done]).
Proof.
  intros Hp Hfetch Hmime.
  destruct (generate_digest_cases rt w (fetched w))
    as [[_ Hgen]|(l & m & _ & Hm & _)];
    [|specialize (Hp l); unfold prints in Hp; congruence].
  eexists. split; [exact Hgen|].
  unfold DailyDigestApp.run, send_email.
  destruct (smtp_error w) as [e|];
    repeat (first [rewrite print_Ok by apply Hp | rewrite Hfetch
                  | rewrite Hgen | rewrite Hmime];
            cbn [mbind result_bind mret result_ret html_content]);
    by rewrite <- !app_assoc.
Qed.

(** C8, on the failing input.  With the three credentials set and
    RECEIVER_EMAILS unset, the list of recipients is the one empty string,
    validation passes, startup succeeds and the script goes on to the run;
    when nothing raises in the run, the digest is handed to the mail
    session with that list of recipients, as it is on the sample world
    with five papers.  The claim asks for an error at startup here. *)
Theorem missing_receivers_pass_validation (rt : Interp) (w : World) :
  receiver_emails (Config.__init__ env_without_receivers) = [[]]
  ∧ validate (Config.__init__ env_without_receivers) = Ok ()
  ∧ DailyDigestApp.__init__ env_without_receivers
    = Ok (Config.__init__ env_without_receivers)
  ∧ DailyDigestApp.main rt w env_without_receivers
    = DailyDigestApp.run rt w (Config.__init__ env_without_receivers)
  ∧ ((∀ l, prints w l) → fetch_error w = None →
     (∀ c, mime_error w c = None) → smtp_error w = None →
     ∃ digest_html out,
       DailyDigestApp.main rt w env_without_receivers
       = Ok (Some {| receivers := [[]];
                     subject := lit "AI Research Digest - " ++ today_iso w;
                     html_content := digest_html |}, out))
  ∧ (∃ digest_html out,
       DailyDigestApp.main py_default
         (world (Text (lit "0, 1, 2")) (λ _, Text (lit "<p>ok</p>"))
            (λ _, 0%nat))
         env_without_receivers
       = Ok (Some {| receivers := [[]];
                     subject := lit "AI Research Digest - 2026-01-01";
                     html_content := digest_html |}, out)).
Proof.
  assert (receiver_emails (Config.__init__ env_without_receivers) = [[]])
    as Hrecv by (vm_compute; reflexivity).
  assert (DailyDigestApp.__init__ env_without_receivers
          = Ok (Config.__init__ env_without_receivers)) as Hinit
    by (vm_compute; reflexivity).
  assert (DailyDigestApp.main rt w env_without_receivers
          = DailyDigestApp.run rt w (Config.__init__ env_without_receivers))
    as Hmain by (unfold DailyDigestApp.main; by rewrite Hinit).
  split_and!; [done|vm_compute; reflexivity|done|done| |].
  - intros Hp Hfetch Hmime Hsmtp.
    destruct (run_quiet rt w (Config.__init__ env_without_receivers)
                Hp Hfetch Hmime) as (html & _ & Hrun).
    rewrite Hmain, Hrun, Hsmtp, Hrecv. by eexists _, _.
  - eexists _, _. vm_compute. reflexivity.
Qed.

(** * Further properties of the code *)

(** ** Startup and the configuration *)

Lemma truthy_str_false (v : option str) :
  truthy_str v = false ↔ v = None ∨ v = Some [].
Proof.
  destruct v as [[|c s]|]; simpl; split; try done; auto.
  - intros [?|?]; done.
Qed.

Lemma startup_Ok_or_missing (env : gmap string str) :
  (truthy_str (getenv env "GEMINI_API_KEY") = false
   ∨ truthy_str (getenv env "EMAIL_ADDRESS") = false
   ∨ truthy_str (getenv env "EMAIL_PASSWORD") = false)
  ∨ (truthy_str (getenv env "GEMINI_API_KEY") = true
     ∧ truthy_str (getenv env "EMAIL_ADDRESS") = true
     ∧ truthy_str (getenv env "EMAIL_PASSWORD") = true).
Proof.
  destruct (truthy_str (getenv env "GEMINI_API_KEY")),
    (truthy_str (getenv env "EMAIL_ADDRESS")),
    (truthy_str (getenv env "EMAIL_PASSWORD")); auto.
Qed.

(** X1.  [DailyDigestApp.__init__] raises exactly when the API key, the
    sender address or the sender password is unset or empty; otherwise it
    returns the configuration read from the environment.  The recipients
    play no part: their list is never empty. *)
Theorem startup_raises_iff_credential_missing (env : gmap string str) :
  (DailyDigestApp.__init__ env = Raise MissingEnvironment
   ↔ unset_or_empty env "GEMINI_API_KEY"
     ∨ unset_or_empty env "EMAIL_ADDRESS"
     ∨ unset_or_empty env "EMAIL_PASSWORD")
  ∧ (DailyDigestApp.__init__ env = Raise MissingEnvironment
     ∨ DailyDigestApp.__init__ env = Ok (Config.__init__ env))
  ∧ receiver_emails (Config.__init__ env) ≠ [].
Proof.
  unfold unset_or_empty. rewrite <- !truthy_str_false.
  destruct (startup_Ok_or_missing env) as [Hmiss|(Hkey & Haddr & Hpass)].
  - destruct (validate_requires_credentials py_default
                (world (Fails []) (λ _, Fails []) (λ _, 0%nat)) env Hmiss)
      as [Hinit _].
    split_and!; [done|by left|].
    pose proof (validate_ignores_receivers env) as Hrecv.
    by destruct (receiver_emails (Config.__init__ env)).
  - pose proof (startup_with_credentials env Hkey Haddr Hpass) as Hinit.
    split_and!.
    + rewrite Hinit, Hkey, Haddr, Hpass. split; [done|].
      intros [?|[?|?]]; done.
    + by right.
    + pose proof (validate_ignores_receivers env) as Hrecv.
      by destruct (receiver_emails (Config.__init__ env)).
Qed.

(** ** The list of recipients *)

Lemma split_comma_no_comma (a : str) : 44%N ∉ a → split_comma a = [a].
Proof.
  induction a as [|c a IH]; intros Hc; [done|]. simpl.
  rewrite bool_decide_false by (intros ->; apply Hc; left).
  rewrite IH; [done|]. intros ?. apply Hc. by right.
Qed.

Lemma split_comma_app (a rest : str) :
  44%N ∉ a → split_comma (a ++ 44%N :: rest) = a :: split_comma rest.
Proof.
  induction a as [|c a IH]; intros Hc; [done|]. simpl.
  rewrite bool_decide_false by (intros ->; apply Hc; left).
  rewrite IH; [done|]. intros ?. apply Hc. by right.
Qed.

Lemma split_comma_join (addrs : list str) :
  addrs ≠ [] → Forall (λ a, 44%N ∉ a) addrs →
  split_comma (join [44%N] addrs) = addrs.
Proof.
  intros Hne Hall. induction Hall as [|a addrs Ha Hall IH]; [done|].
  destruct addrs as [|b addrs].
  - simpl. by apply split_comma_no_comma.
  - change (join [44%N] (a :: b :: addrs))
      with (a ++ 44%N :: join [44%N] (b :: addrs)).
    rewrite split_comma_app by done. by rewrite IH.
Qed.

Lemma join_split_comma (s : str) : join [44%N] (split_comma s) = s.
Proof.
  induction s as [|c s IH]; [done|]. simpl.
  destruct (split_comma_cons s) as (piece & pieces & Hs).
  rewrite Hs in IH |- *. case_bool_decide as Hc.
  - subst c. change (join [44%N] ([] :: piece :: pieces))
      with (44%N :: join [44%N] (piece :: pieces)). by rewrite IH.
  - destruct pieces as [|piece' pieces]; simpl in *; by rewrite IH.
Qed.

Lemma split_comma_pieces (s : str) : Forall (λ a, 44%N ∉ a) (split_comma s).
Proof.
  induction s as [|c s IH]; simpl.
  - repeat constructor. apply not_elem_of_nil.
  - case_bool_decide as Hc.
    + constructor; [apply not_elem_of_nil|done].
    + destruct (split_comma s) as [|piece pieces]; [|inversion_clear IH].
      * repeat constructor. by intros ?%list_elem_of_singleton.
      * constructor; [|done]. intros [?|?]%elem_of_cons; done.
Qed.

(** X2.  A RECEIVER_EMAILS made of addresses without commas, written one
    after the other with a comma between them, is read back as exactly
    these addresses, in order: nothing is trimmed, merged or dropped. *)
Theorem receivers_read_back (env : gmap string str) (addrs : list str) :
  addrs ≠ [] → Forall (λ a, 44%N ∉ a) addrs →
  receiver_emails
    (Config.__init__ (<["RECEIVER_EMAILS" := join [44%N] addrs]> env))
  = addrs.
Proof.
  intros Hne Hall. cbn [receiver_emails Config.__init__].
  unfold getenv_default. rewrite lookup_insert_eq. simpl.
  by apply split_comma_join.
Qed.

(** X2 on two addresses; the blank after the comma stays in the second. *)
Lemma receivers_read_back_witness :
  receiver_emails
    (Config.__init__
       (<["RECEIVER_EMAILS" := lit "a@x.org, b@y.org"]> env_without_receivers))
  = [lit "a@x.org"; lit " b@y.org"].
Proof.
  apply (receivers_read_back env_without_receivers
           [lit "a@x.org"; lit " b@y.org"]).
  - done.
  - repeat constructor; vm_compute; intros Hin;
      repeat (apply elem_of_cons in Hin as [Heq|Hin]; [done|]);
      by apply elem_of_nil in Hin.
Defined.

(** X3.  Whatever RECEIVER_EMAILS holds, the recipients of the
    configuration joined with commas give back the variable as it was set
    (the empty string when unset), and no recipient contains a comma. *)
Theorem receivers_rejoin (env : gmap string str) :
  join [44%N] (receiver_emails (Config.__init__ env))
    = getenv_default env "RECEIVER_EMAILS" []
  ∧ Forall (λ a, 44%N ∉ a) (receiver_emails (Config.__init__ env)).
Proof.
  cbn [receiver_emails Config.__init__].
  split; [apply join_split_comma|apply split_comma_pieces].
Qed.

(** ** The run and the script *)







(** ** What makes the selection fall back *)

Lemma mapM_int_Raise rt (toks : list str) (e : exn) :
  Forall (λ tok, tok ≠ [] ∧ Forall (λ c, is_Some (decimal rt c)) tok) toks →
  mapM (int rt) toks = Raise e →
  ∃ tok, tok ∈ toks ∧ e = IntTooManyDigits (length tok)
         ∧ ¬ within_digit_limit rt tok.
Proof.
  induction 1 as [|tok toks [Hne Hdig] _ IH]; [done|].
  change (mapM (int rt) (tok :: toks))
    with (int rt tok ≫= λ y, mapM (int rt) toks ≫= λ k, mret (y :: k)).
  destruct (decide (within_digit_limit rt tok)) as [Hin|Hout].
  - rewrite int_of_token by done. cbn [mbind result_bind].
    destruct (mapM (int rt) toks) as [vs|e'] eqn:Hm; [done|].
    intros [= <-]. destruct IH as (tok' & Hin' & He & Hlim); [done|].
    exists tok'. split; [by right|done].
  - unfold int. rewrite bool_decide_false.
    + rewrite bool_decide_true by (by apply dec_stable).
      intros [= <-]. exists tok. split; [by left|done].
    + intros [?|Hex]; [done|].
      apply Exists_exists in Hex as (c & Hc & Hnone).
      rewrite Forall_forall in Hdig. specialize (Hdig c Hc).
      rewrite Hnone in Hdig. by destruct Hdig.
Qed.

(** X6.  The [try] block of the selection raises in two cases only: the
    request failed, or one of the first three numbers of the reply has
    more digits than [int] accepts (more than 640 and more than the
    interpreter's limit, when there is one).  Indexing never raises, nor
    does [int] reject a token as malformed. *)
Theorem selection_raises_only (rt : Interp) (papers : list Paper)
    (r : reply) (e : exn) :
  selection_attempt rt papers r = Raise e →
  (∃ m, r = Fails m ∧ e = GenerationError m)
  ∨ (∃ t tok, r = Text t ∧ tok ∈ first_ids rt t
       ∧ e = IntTooManyDigits (length tok)
       ∧ (640 < length tok)%nat
       ∧ (0 < int_max_str_digits rt < length tok)%nat).
Proof.
  destruct r as [t|m]; unfold selection_attempt; cbn [mbind result_bind].
  - intros Hraise. right.
    fold (first_ids rt t) in Hraise.
    destruct (mapM (int rt) (first_ids rt t)) as [vs|e'] eqn:Hm.
    + cbn [mbind result_bind] in Hraise.
      fold (selected_positions papers vs) in Hraise.
      rewrite mapM_getitem_guarded in Hraise
        by apply selected_positions_in_range.
      done.
    + injection Hraise as <-.
      destruct (mapM_int_Raise rt _ _ (first_ids_tokens rt t) Hm)
        as (tok & Hin & -> & Hlim).
      exists t, tok. unfold within_digit_limit in Hlim.
      apply dec_stable in Hlim. split_and!; try done; lia.
  - intros [= <-]. left. by exists m.
Qed.

(** X6 on a reply of 4301 nines under the default limit of 4300 digits:
    the number is refused and the selection falls back. *)
Lemma selection_raises_only_witness :
  (∃ m, Text (replicate 4301 57%N) = Fails m
        ∧ IntTooManyDigits 4301 = GenerationError m)
  ∨ (∃ t tok, Text (replicate 4301 57%N) = Text t
       ∧ tok ∈ first_ids py_default t
       ∧ IntTooManyDigits 4301 = IntTooManyDigits (length tok)
       ∧ (640 < length tok)%nat
       ∧ (0 < int_max_str_digits py_default < length tok)%nat).
Proof.
  apply (selection_raises_only py_default (corpus 5)).
  vm_compute. reflexivity.
Defined.

(** ** Numbers as they are printed and read *)

Lemma digit_char_decimal rt (d : nat) :
  (d < 10)%nat → decimal rt (digit_char d) = Some (Z.of_nat d).
Proof.
  intros Hd. do 10 (destruct d as [|d]; [reflexivity|]). lia.
Qed.

Lemma digit_char_not_space (d : nat) :
  (d < 10)%nat → isspace (digit_char d) = false.
Proof.
  intros Hd. do 10 (destruct d as [|d]; [reflexivity|]). lia.
Qed.

Lemma digits_of_fuel (f1 f2 n : nat) :
  (n < f1)%nat → (n < f2)%nat → digits_of f1 n = digits_of f2 n.
Proof.
  revert f2 n. induction f1 as [|f1 IH]; intros [|f2] n H1 H2; try lia.
  cbn [digits_of]. case_decide as Hn; [done|]. f_equal.
  assert (n `div` 10 < n)%nat by (apply Nat.div_lt; lia).
  apply IH; lia.
Qed.

Lemma str_of_nat_unfold (n : nat) :
  str_of_nat n
  = if decide (n < 10)%nat then [digit_char n]
    else str_of_nat (n `div` 10) ++ [digit_char (n `mod` 10)].
Proof.
  unfold str_of_nat at 1. cbn [digits_of]. case_decide as Hn; [done|]. f_equal.
  assert (n `div` 10 < n)%nat by (apply Nat.div_lt; lia).
  apply digits_of_fuel; lia.
Qed.

(** The printed number ends with a digit and is made of digits. *)
Lemma str_of_nat_snoc (n : nat) :
  ∃ s, str_of_nat n = s ++ [digit_char (n `mod` 10)].
Proof.
  rewrite str_of_nat_unfold. case_decide as Hn.
  - exists []. by rewrite Nat.mod_small.
  - by eexists.
Qed.

Lemma str_of_nat_digits (n : nat) :
  Forall (λ c, ∃ d, (d < 10)%nat ∧ c = digit_char d) (str_of_nat n).
Proof.
  induction n as [n IH] using lt_wf_ind.
  rewrite str_of_nat_unfold. case_decide as Hn.
  - repeat constructor. by exists n.
  - apply Forall_app. split.
    + apply IH, Nat.div_lt; lia.
    + repeat constructor. exists (n `mod` 10)%nat. split; [|done].
      apply Nat.mod_upper_bound. lia.
Qed.

Lemma str_of_nat_token rt (n : nat) :
  str_of_nat n ≠ [] ∧ Forall (λ c, is_Some (decimal rt c)) (str_of_nat n).
Proof.
  split.
  - destruct (str_of_nat_snoc n) as [s ->]. by destruct s.
  - eapply Forall_impl; [apply str_of_nat_digits|].
    intros c (d & Hd & ->). rewrite digit_char_decimal by done. by eexists.
Qed.

(** Reading a printed number gives the number back. *)
Lemma int_value_str_of_nat rt (n : nat) :
  int_value rt (str_of_nat n) = Z.of_nat n.
Proof.
  induction n as [n IH] using lt_wf_ind.
  rewrite str_of_nat_unfold. case_decide as Hn.
  - unfold int_value. cbn [foldl].
    rewrite digit_char_decimal by done. cbn [from_option id]. lia.
  - unfold int_value in *. rewrite foldl_app. cbn [foldl].
    rewrite IH by (apply Nat.div_lt; lia).
    rewrite digit_char_decimal by (apply Nat.mod_upper_bound; lia).
    cbn [from_option id]. pose proof (Nat.div_mod_eq n 10). lia.
Qed.

Lemma str_of_nat_length (k n : nat) :
  (0 < k)%nat → Z.of_nat n < 10 ^ Z.of_nat k →
  (length (str_of_nat n) ≤ k)%nat.
Proof.
  revert n. induction k as [|k IH]; intros n Hk Hn; [lia|].
  rewrite str_of_nat_unfold. case_decide as Hsmall; [cbn [length]; lia|].
  rewrite length_app. cbn [length].
  rewrite Nat2Z.inj_succ, Z.pow_succ_r in Hn by lia.
  assert (Z.of_nat (n `div` 10) < 10 ^ Z.of_nat k) as Hdiv.
  { pose proof (Nat.div_mod_eq n 10). lia. }
  destruct k as [|k].
  - change (10 ^ Z.of_nat 0) with 1 in Hdiv.
    assert (n `div` 10 = 0)%nat as Hz by lia.
    apply Nat.div_small_iff in Hz; lia.
  - specialize (IH (n `div` 10)%nat). lia.
Qed.

Lemma str_of_int_nat (n : nat) : str_of_int (Z.of_nat n) = str_of_nat n.
Proof.
  unfold str_of_int. rewrite bool_decide_false by lia. by rewrite Nat2Z.id.
Qed.

Lemma int_str_of_nat rt (n : nat) :
  Z.of_nat n < 10 ^ 640 → int rt (str_of_nat n) = Ok (Z.of_nat n).
Proof.
  intros Hn. destruct (str_of_nat_token rt n) as [Hne Hdig].
  rewrite int_of_token, int_value_str_of_nat; try done.
  pose proof (str_of_nat_length 640 n) as Hlen.
  unfold within_digit_limit.
  assert (length (str_of_nat n) ≤ 640)%nat; [|lia].
  apply Hlen; [lia|]. by change (Z.of_nat 640) with 640.
Qed.

(** ** The tokens of a list of numbers *)

Lemma findall_from_digits rt (ds run s : str) :
  Forall (λ c, is_Some (decimal rt c)) ds →
  findall_from rt run (ds ++ s) = findall_from rt (reverse ds ++ run) s.
Proof.
  intros Hds. revert run. induction Hds as [|c ds Hc _ IH]; intros run.
  - done.
  - cbn [app findall_from]. unfold isdecimal.
    rewrite bool_decide_true by done. rewrite IH.
    by rewrite reverse_cons, <- app_assoc.
Qed.

Lemma findall_token_then rt (tok s : str) (c : char) :
  tok ≠ [] → Forall (λ c, is_Some (decimal rt c)) tok →
  decimal rt c = None →
  re_findall_digits rt (tok ++ c :: s) = tok :: re_findall_digits rt s.
Proof.
  intros Hne Hdig Hc. unfold re_findall_digits.
  rewrite findall_from_digits by done. cbn [findall_from].
  unfold isdecimal. rewrite bool_decide_false by (rewrite Hc; by intros [? ?]).
  rewrite app_nil_r. unfold flush.
  destruct (reverse tok) as [|x l] eqn:Hrev.
  - apply (f_equal reverse) in Hrev. rewrite reverse_involutive in Hrev.
    done.
  - by rewrite <- Hrev, reverse_involutive.
Qed.

Lemma findall_token_end rt (tok : str) :
  tok ≠ [] → Forall (λ c, is_Some (decimal rt c)) tok →
  re_findall_digits rt tok = [tok].
Proof.
  intros Hne Hdig. unfold re_findall_digits.
  rewrite <- (app_nil_r tok) at 1. rewrite findall_from_digits by done.
  cbn [findall_from]. rewrite app_nil_r. unfold flush.
  destruct (reverse tok) as [|x l] eqn:Hrev.
  - apply (f_equal reverse) in Hrev. rewrite reverse_involutive in Hrev.
    done.
  - by rewrite <- Hrev, reverse_involutive.
Qed.

Lemma findall_skip rt (c : char) (s : str) :
  decimal rt c = None →
  re_findall_digits rt (c :: s) = re_findall_digits rt s.
Proof.
  intros Hc. unfold re_findall_digits. cbn [findall_from].
  unfold isdecimal. by rewrite bool_decide_false by (rewrite Hc; by intros [? ?]).
Qed.

Lemma findall_join_comma rt (toks : list str) :
  Forall (λ tok, tok ≠ [] ∧ Forall (λ c, is_Some (decimal rt c)) tok) toks →
  re_findall_digits rt (join (lit ", ") toks) = toks.
Proof.
  induction 1 as [|tok toks [Hne Hdig] Hall IH]; [done|].
  destruct toks as [|tok' toks].
  - by apply findall_token_end.
  - change (join (lit ", ") (tok :: tok' :: toks))
      with (tok ++ 44%N :: 32%N :: join (lit ", ") (tok' :: toks)).
    rewrite findall_token_then by done.
    rewrite findall_skip by done. by rewrite IH.
Qed.

(** ** Stripping a text that has no blank at either end *)

Lemma rstrip_snoc (s : str) (c : char) :
  isspace c = false → rstrip (s ++ [c]) = s ++ [c].
Proof.
  intros Hc. unfold rstrip. rewrite reverse_snoc. cbn [lstrip].
  rewrite Hc. by rewrite reverse_cons, reverse_involutive.
Qed.

Lemma strip_no_blank_ends (c1 c2 : char) (s : str) :
  isspace c1 = false → isspace c2 = false →
  ∀ s', c1 :: s = s' ++ [c2] → strip (c1 :: s) = c1 :: s.
Proof.
  intros H1 H2 s' Heq. unfold strip. cbn [lstrip]. rewrite H1.
  rewrite Heq. by apply rstrip_snoc.
Qed.

Lemma join_snoc (sep : str) (toks : list str) (P : char → Prop) :
  toks ≠ [] → Forall (λ tok, ∃ s c, tok = s ++ [c] ∧ P c) toks →
  ∃ s c, join sep toks = s ++ [c] ∧ P c.
Proof.
  intros Hne Hall. induction Hall as [|tok toks (s & c & -> & Hc) _ IH];
    [done|].
  destruct toks as [|tok' toks].
  - by exists s, c.
  - destruct IH as (s' & c' & Heq & Hc'); [done|].
    exists ((s ++ [c]) ++ sep ++ s'), c'. split; [|done].
    change (join sep ((s ++ [c]) :: tok' :: toks))
      with ((s ++ [c]) ++ sep ++ join sep (tok' :: toks)).
    by rewrite Heq, !app_assoc.
Qed.

Lemma strip_join_numbers (ns : list nat) :
  strip (join (lit ", ") (str_of_nat <$> ns))
  = join (lit ", ") (str_of_nat <$> ns).
Proof.
  destruct ns as [|n ns]; [done|].
  destruct (join_snoc (lit ", ") (str_of_nat <$> n :: ns)
              (λ c, isspace c = false)) as (s & c & Heq & Hc).
  - done.
  - apply Forall_fmap, Forall_forall. intros m _.
    destruct (str_of_nat_snoc m) as [s' Hs'].
    exists s', (digit_char (m `mod` 10)). split; [done|]. apply digit_char_not_space, Nat.mod_upper_bound. lia.
  - assert (∃ c1 s1, join (lit ", ") (str_of_nat <$> n :: ns) = c1 :: s1
                     ∧ isspace c1 = false) as (c1 & s1 & Hhead & Hc1).
    { pose proof (str_of_nat_digits n) as Hdig.
      destruct (str_of_nat_token py_default n) as [Hne _].
      destruct (str_of_nat n) as [|c1 s1] eqn:Hn; [done|].
      apply Forall_cons in Hdig as [(d & Hd & ->) _].
      rewrite fmap_cons, Hn.
      destruct (str_of_nat <$> ns); simpl; eexists _, _;
        (split; [done|by apply digit_char_not_space]). }
    rewrite Hhead in Heq |- *.
    by apply (strip_no_blank_ends c1 c (s1) Hc1 Hc s).
Qed.

(** ** A reply in the format the prompt asks for *)

Lemma str_of_int_to_nat (ids : list Z) :
  Forall (λ i, 0 ≤ i) ids →
  str_of_int <$> ids = str_of_nat <$> (Z.to_nat <$> ids).
Proof.
  induction 1 as [|i ids Hi _ IH]; [done|].
  rewrite !fmap_cons, IH. f_equal.
  rewrite <- (Z2Nat.id i) at 1 by done. apply str_of_int_nat.
Qed.

Lemma int_value_numbers rt (ns : list nat) :
  int_value rt <$> (str_of_nat <$> ns) = Z.of_nat <$> ns.
Proof.
  induction ns as [|n ns IH]; [done|].
  by rewrite !fmap_cons, IH, int_value_str_of_nat.
Qed.

(** X7.  When the reply is a list of IDs in the format the prompt asks
    for, printed as Python prints numbers and separated by a comma and a
    blank, and every ID is a position of the corpus, the selected indices
    are the first three IDs of the list and the selected papers are the
    papers at these positions, in the order of the reply.  (The bound on
    the size of the corpus keeps the printed IDs under the digit limit of
    [int].) *)
Theorem listed_ids_are_selected (rt : Interp) (w : World)
    (papers : list Paper) (ids : list Z) :
  Z.of_nat (length papers) ≤ 10 ^ 640 →
  Forall (λ i, 0 ≤ i < Z.of_nat (length papers)) ids →
  selection rt w papers (Text (join (lit ", ") (str_of_int <$> ids)))
  = Ok (papers_at papers (take 3 ids), take 3 ids, []).
Proof.
  intros Hsize Hids.
  assert (Forall (λ i, 0 ≤ i) ids) as Hpos
    by (eapply Forall_impl; [done|]; simpl; lia).
  rewrite str_of_int_to_nat by done.
  set (ns := Z.to_nat <$> ids).
  assert (Z.of_nat <$> ns = ids) as Hns.
  { unfold ns. clear -Hpos. induction Hpos as [|i ids Hi _ IH]; [done|].
    rewrite !fmap_cons, IH. f_equal. lia. }
  assert (first_ids rt (join (lit ", ") (str_of_nat <$> ns))
          = take 3 (str_of_nat <$> ns)) as Hfirst.
  { unfold first_ids. rewrite strip_join_numbers, findall_join_comma; [done|].
    apply Forall_fmap, Forall_forall. intros n _. apply str_of_nat_token. }
  rewrite selection_text_Ok; rewrite Hfirst.
  - rewrite <- fmap_take, int_value_numbers, fmap_take, Hns.
    by rewrite selected_positions_all by (by apply Forall_take).
  - rewrite <- fmap_take. apply Forall_fmap, Forall_forall. intros n Hn.
    assert (n ∈ ns) as Hin
      by (by apply elem_of_take in Hn as (? & ?%list_elem_of_lookup_2 & _)).
    assert (Z.of_nat n ∈ ids) as Hin'
      by (rewrite <- Hns; by apply list_elem_of_fmap_2).
    rewrite Forall_forall in Hids. specialize (Hids _ Hin').
    cbn [compose]. unfold within_digit_limit.
    assert (length (str_of_nat n) ≤ 640)%nat; [|lia].
    apply str_of_nat_length; [lia|]. change (Z.of_nat 640) with 640. lia.
Qed.

(** X7 on the example of the prompt, "0, 15, 42", and 43 papers. *)
Lemma listed_ids_are_selected_witness :
  selection py_default
    (world (Text (lit "0, 15, 42")) (λ _, Fails []) (λ _, 0%nat))
    (corpus 43) (Text (lit "0, 15, 42"))
  = Ok (papers_at (corpus 43) [0; 15; 42], [0; 15; 42], []).
Proof.
  refine (listed_ids_are_selected py_default _ (corpus 43) [0; 15; 42] _ _).
  - vm_compute. discriminate.
  - repeat constructor; vm_compute; done.
Defined.

(** ** The list of papers in the prompt *)

Lemma occurs_join (sep x : str) (l : list str) :
  x ∈ l → occurs x (join sep l).
Proof.
  induction l as [|y l IH]; intros Hin; [by apply elem_of_nil in Hin|].
  apply elem_of_cons in Hin as [->|Hin].
  - destruct l as [|z l].
    + exists [], []. simpl. by rewrite app_nil_r.
    + exists [], (sep ++ join sep (z :: l)). done.
  - destruct l as [|z l]; [by apply elem_of_nil in Hin|].
    destruct (IH Hin) as (l1 & l2 & Heq).
    exists (y ++ sep ++ l1), l2.
    change (join sep (y :: z :: l)) with (y ++ sep ++ join sep (z :: l)).
    by rewrite Heq, <- !app_assoc.
Qed.

(** X8.  Every paper of the corpus has its entry in the text of the prompt;
    the first number of the entry is the ID of the paper, and that ID, read
    as the parser reads it, is the position at which the corpus holds the
    paper. *)
Theorem paper_entry_names_position (rt : Interp) (papers : list Paper)
    (i : Z) (p : Paper) :
  Z.of_nat (length papers) ≤ 10 ^ 640 →
  (i, p) ∈ enumerate papers →
  occurs (paper_entry (i, p)) (paper_text papers)
  ∧ head (re_findall_digits rt (paper_entry (i, p))) = Some (str_of_int i)
  ∧ int rt (str_of_int i) = Ok i
  ∧ getitem papers i = Ok p.
Proof.
  intros Hsize Hin.
  pose proof Hin as [Hpos Hlook]%elem_of_enumerate.
  pose proof (lookup_lt_Some _ _ _ Hlook) as Hlt.
  assert (str_of_int i = str_of_nat (Z.to_nat i)) as Hstr.
  { rewrite <- (Z2Nat.id i) at 1 by done. apply str_of_int_nat. }
  split_and!.
  - apply occurs_join. by apply list_elem_of_fmap_2.
  - unfold paper_entry. cbn [fst snd]. rewrite Hstr.
    change (lit "ID: ") with [73; 68; 58; 32]%N. cbn [app].
    rewrite !findall_skip by done.
    destruct (str_of_nat_token rt (Z.to_nat i)) as [Hne Hdig].
    by rewrite findall_token_then.
  - rewrite Hstr, int_str_of_nat by lia. f_equal. lia.
  - destruct (getitem_in_range papers i) as (x & Hget & Hx); [lia|].
    rewrite Hget. congruence.
Qed.

(** X8 on the third of five sample papers. *)
Lemma paper_entry_names_position_witness :
  head (re_findall_digits py_default (paper_entry (2, paper_n 2)))
    = Some (lit "2")
  ∧ int py_default (lit "2") = Ok 2
  ∧ getitem (corpus 5) 2 = Ok (paper_n 2).
Proof.
  destruct (paper_entry_names_position py_default (corpus 5) 2 (paper_n 2))
    as (_ & Hhead & Hint & Hget).
  - vm_compute. discriminate.
  - apply elem_of_enumerate. split; [lia|reflexivity].
  - exact (conj Hhead (conj Hint Hget)).
Defined.

(** ** Cleaning a narrative *)

Lemma fence_chars : fence = [96; 96; 96]%N.
Proof. reflexivity. Qed.

Lemma replace_match_fence (s : str) :
  replace fence [] (96 :: 96 :: 96 :: s)%N = replace fence [] s.
Proof.
  unfold replace. cbn [replace_from].
  rewrite bool_decide_true by (exists s; by rewrite fence_chars).
  rewrite fence_chars. reflexivity.
Qed.

Lemma replace_no_match (old new : str) (c : char) (s : str) :
  ¬ old `prefix_of` (c :: s) →
  replace old new (c :: s) = c :: replace old new s.
Proof.
  intros Hno. unfold replace. cbn [replace_from].
  by rewrite bool_decide_false.
Qed.

Lemma occurs_cons (old : str) (c : char) (s : str) :
  occurs old (c :: s) → old `prefix_of` (c :: s) ∨ occurs old s.
Proof.
  intros ([|c' l1] & l2 & Heq).
  - left. by exists l2.
  - right. injection Heq as _ ->. by exists l1, l2.
Qed.

Lemma occurs_nil (old : str) : old ≠ [] → ¬ occurs old [].
Proof.
  intros Hne (l1 & l2 & Heq). symmetry in Heq.
  apply app_eq_nil in Heq as [_ Heq]. by apply app_eq_nil in Heq as [? _].
Qed.

Lemma replace_fence_one_tick (s : str) :
  head s ≠ Some 96%N → head (replace fence [] s) ≠ Some 96%N.
Proof.
  destruct s as [|c s]; [done|]. intros Hc.
  rewrite replace_no_match; [done|].
  rewrite fence_chars. intros [k Hk]. injection Hk as -> _. done.
Qed.

Lemma replace_fence_two_ticks (s : str) :
  ¬ [96; 96]%N `prefix_of` s → ¬ [96; 96]%N `prefix_of` replace fence [] s.
Proof.
  destruct s as [|c s]; intros Hno.
  - by intros [k Hk].
  - rewrite replace_no_match.
    + intros [k Hk]. injection Hk as -> Hk.
      apply (replace_fence_one_tick s); [|by rewrite Hk].
      destruct s as [|c' s]; [done|]. intros [= ->]. apply Hno. by exists s.
    + rewrite fence_chars. intros [k Hk]. injection Hk as -> ->.
      apply Hno. by exists (96%N :: k).
Qed.

Lemma replace_fence_none (n : nat) (s : str) :
  (length s ≤ n)%nat → ¬ occurs fence (replace fence [] s).
Proof.
  revert s. induction n as [|n IH]; intros [|c s] Hlen;
    try (simpl in Hlen; lia); try (by apply occurs_nil).
  destruct (decide (fence `prefix_of` (c :: s))) as [[k Hk]|Hno].
  - rewrite fence_chars in Hk. injection Hk as -> ->.
    rewrite replace_match_fence. apply IH. simpl in Hlen. lia.
  - rewrite replace_no_match by done.
    intros [[k Hk]|Hocc]%occurs_cons.
    + rewrite fence_chars in Hk. injection Hk as -> Hk.
      apply (replace_fence_two_ticks s); [|by exists k].
      intros [k' ->]. apply Hno. rewrite fence_chars. by exists k'.
    + revert Hocc. apply IH. simpl in Hlen. lia.
Qed.

Lemma replace_absent (old new s : str) :
  ¬ occurs old s → replace old new s = s.
Proof.
  induction s as [|c s IH]; intros Hno; [done|].
  rewrite replace_no_match.
  - f_equal. apply IH. intros (l1 & l2 & ->). apply Hno.
    by exists (c :: l1), l2.
  - intros [k Hk]. apply Hno. by exists [], k.
Qed.

Lemma clean_no_fence (t : str) : ¬ occurs fence (clean t).
Proof. unfold clean. by eapply replace_fence_none. Qed.

Lemma clean_absent (t : str) : ¬ occurs fence t → clean t = t.
Proof.
  intros Hno. unfold clean.
  rewrite (replace_absent (lit "```html")).
  - by apply replace_absent.
  - intros (l1 & l2 & ->). apply Hno.
    exists l1, (lit "html" ++ l2). by rewrite fence_chars.
Qed.

(** X9.  After the cleaning of line 120 no code fence is left: three
    backquotes in a row occur nowhere in a cleaned narrative, however the
    reply nests or repeats them, and so in no narrative section of the
    digest. *)
Theorem cleaned_narrative_has_no_fence (w : World) (j n : nat) :
  (∀ t, ¬ occurs fence (clean t))
  ∧ Forall (λ s, ¬ occurs fence s) (narrative_sections w j n).
Proof.
  split; [apply clean_no_fence|].
  apply Forall_forall. intros s Hs. unfold narrative_sections in Hs.
  apply list_elem_of_omap in Hs as (i & _ & Hi).
  destruct (narrative_reply w i) as [t|e]; [|done].
  injection Hi as <-. apply clean_no_fence.
Qed.

(** X10.  A reply without a code fence goes into the digest as it is, and
    cleaning a second time changes nothing. *)
Theorem clean_keeps_text_without_fence (t : str) :
  (¬ occurs fence t → clean t = t) ∧ clean (clean t) = clean t.
Proof.
  split; [apply clean_absent|]. apply clean_absent, clean_no_fence.
Qed.

(** ** The remainder of the corpus *)

Lemma filter_ext_in {A} (P Q : A → Prop) `{∀ x, Decision (P x)}
    `{∀ x, Decision (Q x)} (l : list A) :
  (∀ x, x ∈ l → P x ↔ Q x) → filter P l = filter Q l.
Proof.
  induction l as [|x l IH]; intros Hext; [done|].
  rewrite !filter_cons.
  assert (filter P l = filter Q l) as ->
    by (apply IH; intros y Hy; apply Hext; by right).
  destruct (decide (P x)) as [Hp|Hp], (decide (Q x)) as [Hq|Hq]; try done.
  - by apply (Hext x) in Hp; [|left].
  - by apply (Hext x) in Hq; [|left].
Qed.

Lemma enumerate_snd {A} (l : list A) : (enumerate l).*2 = l.
Proof.
  unfold enumerate. rewrite fmap_imap.
  apply list_eq. intros i. rewrite list_lookup_imap.
  by destruct (l !! i).
Qed.

Lemma remaining_indexed_valid (papers : list Paper) (sel : list Z) :
  remaining_indexed papers sel
  = remaining_indexed papers (selected_positions papers sel).
Proof.
  unfold remaining_indexed. apply filter_ext_in.
  intros [i p] [Hpos Hlook]%elem_of_enumerate. cbn [fst].
  apply lookup_lt_Some in Hlook. unfold selected_positions.
  rewrite list_elem_of_filter. split.
  - intros Hnot [_ ?]. done.
  - intros Hnot Hin. apply Hnot. split; [lia|done].
Qed.

(** X11.  A selected index that is not a position of the corpus excludes
    nothing from the bonus reading: the remainder is the same as for the
    valid positions alone, so the draw is the same; and when no selected
    index is valid, as after a reply naming only numbers out of range, the
    remainder is the whole corpus. *)
Theorem invalid_indices_exclude_nothing (w : World) (papers : list Paper)
    (selected_indices : list Z) :
  remaining_papers papers selected_indices
    = remaining_papers papers (selected_positions papers selected_indices)
  ∧ bonus_papers w papers selected_indices
    = bonus_papers w papers (selected_positions papers selected_indices)
  ∧ (selected_positions papers selected_indices = [] →
     remaining_papers papers selected_indices = papers).
Proof.
  assert (remaining_papers papers selected_indices
          = remaining_papers papers
              (selected_positions papers selected_indices)) as Hrem
    by (unfold remaining_papers; by rewrite <- remaining_indexed_valid).
  split_and!; [done| |].
  - unfold bonus_papers. by rewrite <- Hrem.
  - intros Hnil. rewrite Hrem, Hnil.
    unfold remaining_papers, remaining_indexed.
    rewrite (filter_ext_in _ (λ _, True)).
    + rewrite <- (enumerate_snd papers) at 2. f_equal.
      induction (enumerate papers) as [|x l IH]; [done|].
      by rewrite filter_cons_True, IH.
    + intros x _. split; [done|]. intros _. apply not_elem_of_nil.
Qed.

Lemma filter_all {A} (P : A → Prop) `{∀ x, Decision (P x)} (l : list A) :
  (∀ x, x ∈ l → P x) → filter P l = l.
Proof.
  induction l as [|x l IH]; intros Hall; [done|].
  rewrite filter_cons_True by (apply Hall; left).
  f_equal. apply IH. intros y Hy. apply Hall. by right.
Qed.

Lemma remaining_after_fallback (papers : list Paper) :
  remaining_papers papers [0; 1; 2] = drop 3 papers.
Proof.
  rewrite <- (enumerate_snd papers) at 2. rewrite <- fmap_drop.
  unfold remaining_papers, remaining_indexed. f_equal. unfold enumerate.
  destruct papers as [|a [|b [|c l]]]; try reflexivity.
  cbn [imap drop].
  rewrite !filter_cons_False
    by (cbn; rewrite !elem_of_cons; intros Hn; apply Hn; auto).
  apply filter_all. intros x (i & y & -> & _)%elem_of_lookup_imap.
  cbn. rewrite !elem_of_cons, elem_of_nil. lia.
Qed.

(** X12.  When the selection request fails, the papers left for the bonus
    reading are the papers after the first three.  If the line of the
    failure is printed without an exception, and so are the lines of the
    narrative requests that fail, [generate_digest] returns a digest; and
    every digest it returns narrates among the first three papers, draws
    its bonus papers among the papers after them, min(3, N - 3) of them
    (none for a corpus of three papers or less), and has printed the
    failure of the selection first.  If the print of that failure raises,
    its exception leaves [generate_digest]. *)
Theorem fallback_leaves_the_rest (rt : Interp) (w : World)
    (papers : list Paper) (e : str) :
  selection_reply w = Fails e →
  remaining_papers papers [0; 1; 2] = drop 3 papers
  ∧ (∀ html out, generate_digest rt w papers = Ok (html, out) →
     ∃ bonus,
       html = document (today w)
                (narrative_sections w 0 (3 `min` length papers)) bonus
       ∧ out = SelectionFailed (GenerationError e)
               :: narrative_failures w 0 (take 3 papers)
       ∧ bonus ⊆+ drop 3 papers
       ∧ length bonus = (3 `min` (length papers - 3))%nat)
  ∧ (prints w (SelectionFailed (GenerationError e)) →
     Forall (prints w) (narrative_failures w 0 (take 3 papers)) →
     ∃ html out, generate_digest rt w papers = Ok (html, out))
  ∧ (∀ m, print_error w (SelectionFailed (GenerationError e)) = Some m →
     generate_digest rt w papers = Raise (PrintError m)).
Proof.
  intros Hreply.
  assert (selection_outcome rt papers (selection_reply w)
          = (take 3 papers, [0; 1; 2],
             [SelectionFailed (GenerationError e)])) as Hsel
    by (rewrite Hreply; by apply selection_raise).
  pose proof (generate_digest_cases rt w papers) as Hcases.
  unfold digest_lines in Hcases. rewrite Hsel in Hcases.
  cbn [fst snd app] in Hcases. rewrite length_take in Hcases.
  split_and!.
  - apply remaining_after_fallback.
  - intros html out Hgen.
    destruct Hcases as [[_ Hok]|(l & m & _ & _ & Hr)]; [|congruence].
    rewrite Hok in Hgen. injection Hgen as <- <-.
    exists (bonus_drawn w papers [0; 1; 2]).*2. split_and!.
    + apply assemble_document.
    + done.
    + rewrite <- remaining_after_fallback. unfold remaining_papers.
      unfold bonus_drawn. cbv zeta. rewrite <- !draw_fmap.
      apply draw_submseteq.
    + rewrite length_fmap, bonus_drawn_length, remaining_after_fallback.
      by rewrite length_drop.
  - intros Hp Hall.
    destruct Hcases as [[_ Hok]|(l & m & Hl & Hm & _)]; [by eexists _, _|].
    apply elem_of_cons in Hl as [->|Hl].
    + unfold prints in Hp. congruence.
    + rewrite Forall_forall in Hall. specialize (Hall l Hl).
      unfold prints in Hall. congruence.
  - intros m Hm. unfold generate_digest. rewrite Hreply.
    rewrite (selection_attempt_Raise_selection rt w papers (Fails e)
               (GenerationError e)) by done.
    by rewrite (print_Raise _ _ _ Hm).
Qed.

(** X12 on five papers: the two papers after the first three are the
    bonus reading. *)
Lemma fallback_leaves_the_rest_witness :
  ∃ out,
    generate_digest py_default
      (world (Fails (lit "503")) (λ _, Text (lit "<div></div>"))
         (λ _, 0%nat)) (corpus 5)
    = Ok (document (lit "January 01, 2026")
            [lit "<div></div>"; lit "<div></div>"; lit "<div></div>"]
            [paper_n 3; paper_n 4], out).
Proof.
  destruct (fallback_leaves_the_rest py_default
              (world (Fails (lit "503")) (λ _, Text (lit "<div></div>"))
                 (λ _, 0%nat)) (corpus 5) (lit "503") eq_refl)
    as (_ & _ & Hok & _).
  destruct Hok as (html & out & Hgen).
  - reflexivity.
  - vm_compute. constructor.
  - exists out. rewrite Hgen. vm_compute in Hgen. injection Hgen as <- _.
    vm_compute. reflexivity.
Defined.

(** ** The size of a digest *)




(** ** The tokens of a reply *)

Lemma flush_join (run : str) : mjoin (flush run) = reverse run.
Proof. destruct run as [|c run]; [done|]. simpl. by rewrite app_nil_r. Qed.

Lemma findall_from_join rt (s run : list char) :
  mjoin (findall_from rt run s)
  = reverse run ++ filter (λ c, is_Some (decimal rt c)) s.
Proof.
  revert run. induction s as [|c s IH]; intros run; cbn [findall_from].
  - rewrite flush_join. by rewrite app_nil_r.
  - unfold isdecimal. case_bool_decide as Hc.
    + rewrite IH, filter_cons_True by done.
      by rewrite reverse_cons, <- app_assoc.
    + etrans; [apply (join_app (flush run) (findall_from rt [] s))|].
      rewrite flush_join, IH, filter_cons_False by done. done.
Qed.

(** X14.  The tokens that line 79 finds in a text are non-empty runs of
    decimal digits, and put end to end they are exactly the decimal digits
    of the text, in order: no digit is lost and no other character gets
    into a token. *)
Theorem tokens_are_the_digits (rt : Interp) (s : str) :
  mjoin (re_findall_digits rt s) = filter (λ c, is_Some (decimal rt c)) s
  ∧ Forall (λ tok, tok ≠ [] ∧ Forall (λ c, is_Some (decimal rt c)) tok)
      (re_findall_digits rt s).
Proof.
  split.
  - apply (findall_from_join rt s []).
  - apply Forall_forall. intros tok Htok.
    by apply (findall_from_tokens rt s []).
Qed.

(** ** The To header *)

Lemma replace_comma (new : str) (c : char) (s : str) :
  replace [44%N] new (c :: s)
  = if bool_decide (c = 44%N) then new ++ replace [44%N] new s
    else c :: replace [44%N] new s.
Proof.
  unfold replace. cbn [replace_from].
  destruct (decide (c = 44%N)) as [->|Hc].
  - rewrite bool_decide_true by (by exists s).
    by rewrite bool_decide_true by done.
  - rewrite bool_decide_false.
    + by rewrite bool_decide_false by done.
    + intros [k Hk]. injection Hk as -> _. done.
Qed.

Lemma to_header_split (s : str) :
  to_header (split_comma s) = replace [44%N] (lit ", ") s.
Proof.
  unfold to_header. induction s as [|c s IH]; [done|].
  rewrite replace_comma. cbn [split_comma].
  destruct (split_comma_cons s) as (piece & pieces & Hs).
  rewrite Hs in IH |- *. case_bool_decide as Hc.
  - change (join (lit ", ") ([] :: piece :: pieces))
      with (lit ", " ++ join (lit ", ") (piece :: pieces)).
    by rewrite IH.
  - rewrite <- IH. by destruct pieces.
Qed.

(** X15.  The To header of the message is the RECEIVER_EMAILS variable
    with a blank put after each comma (and empty when the variable is
    unset): splitting at startup and joining at sending lose nothing. *)
Theorem to_header_is_the_variable (env : gmap string str) :
  to_header (receiver_emails (Config.__init__ env))
  = replace [44%N] (lit ", ") (getenv_default env "RECEIVER_EMAILS" []).
Proof. cbn [receiver_emails Config.__init__]. apply to_header_split. Qed.
